(** * QuestionnaireAnalysis (hw_5.py): a shallow embedding and its properties

    The class [QuestionnaireAnalysis] keeps one pandas DataFrame in
    [self.data] and offers five operations on it.  This development embeds

    - the cells of the DataFrame as [value] (Python [None], a float NaN, a
      number, a string), a row as the record [Row] and the DataFrame as a
      list of labelled rows;
    - the object as the record [QuestionnaireAnalysis], and every method
      as a function from the object before the call to the object after it
      together with the method's result or the exception it raises;
    - the regular expression of [is_valid_email] through a small regular
      expression matcher, and [np.histogram] through its bin counts.

    Idealisations, fixed here once:
    - the cells hold finite numbers, which are exact rationals ([Q]), and
      means are exact; pandas works on binary floats, which round and can
      be infinite.  Where a property depends on the value of a mean, it is
      stated for answers on which float arithmetic is exact
      ([exact_answers]);
    - [pd.to_numeric] turns a string into a number with pandas' own parser,
      which is not part of this repository: it is the section variable
      [to_float], or, where infinite results have to be told apart, the
      section variable [parse] with its finite part [finite_part];
    - the stored table carries the questionnaire columns [age], [gender],
      [email], [q1] .. [q5], the gender of a row being a string or
      missing; how [read_data] builds the table from a file is not
      modelled (a file without any record gives a table without columns,
      on which every method raises), nor is the drawing done by
      matplotlib;
    - a Python string is its list of bytes: '@' and '.' are single bytes
      that occur in no multi-byte character. *)

From Stdlib Require Import Ascii String.
From Stdlib Require Import List Bool Arith ZArith QArith Qround Lia Lqa.
From Stdlib Require Import Sorted.
From Stdlib Require OrderedTypeEx.
Import ListNotations.

Local Open Scope Z_scope.

(** ** Cells *)

(** A cell of the DataFrame.  [VNone] is Python's [None] (a JSON null kept
    in a column of dtype object), [VNaN] the float NaN. *)
Inductive value : Type :=
| VNone
| VNaN
| VNum (x : Q)
| VStr (s : string).

(** [pd.isna] / [Series.isnull] on one cell. *)
Definition isnull (v : value) : bool :=
  match v with
  | VNone | VNaN => true
  | VNum _ | VStr _ => false
  end.

(** A column has a numeric dtype when it holds floats only. *)
Definition is_float (v : value) : bool :=
  match v with
  | VNum _ | VNaN => true
  | VNone | VStr _ => false
  end.

(** ** Regular expressions, as far as [re.match] is used *)

Module Regex.

Inductive regex : Type :=
| Void
| Eps
| Chr (a : ascii)
| NotChr (a : ascii)
| Cat (r1 r2 : regex)
| Alt (r1 r2 : regex)
| Star (r : regex).

(** [r+] *)
Definition Plus (r : regex) : regex := Cat r (Star r).

(** The language of a regular expression. *)
Inductive matches : regex -> list ascii -> Prop :=
| MEps : matches Eps []
| MChr a : matches (Chr a) [a]
| MNotChr a b : b <> a -> matches (NotChr a) [b]
| MCat r1 r2 w1 w2 :
    matches r1 w1 -> matches r2 w2 -> matches (Cat r1 r2) (w1 ++ w2)
| MAltL r1 r2 w : matches r1 w -> matches (Alt r1 r2) w
| MAltR r1 r2 w : matches r2 w -> matches (Alt r1 r2) w
| MStarNil r : matches (Star r) []
| MStarCons r w1 w2 :
    matches r w1 -> matches (Star r) w2 -> matches (Star r) (w1 ++ w2).

Fixpoint nullable (r : regex) : bool :=
  match r with
  | Void => false
  | Eps => true
  | Chr _ => false
  | NotChr _ => false
  | Cat r1 r2 => nullable r1 && nullable r2
  | Alt r1 r2 => nullable r1 || nullable r2
  | Star _ => true
  end.

(** Derivative of [r] by the character [c]. *)
Fixpoint deriv (c : ascii) (r : regex) : regex :=
  match r with
  | Void => Void
  | Eps => Void
  | Chr a => if Ascii.eqb c a then Eps else Void
  | NotChr a => if Ascii.eqb c a then Void else Eps
  | Cat r1 r2 =>
      if nullable r1
      then Alt (Cat (deriv c r1) r2) (deriv c r2)
      else Cat (deriv c r1) r2
  | Alt r1 r2 => Alt (deriv c r1) (deriv c r2)
  | Star r1 => Cat (deriv c r1) (Star r1)
  end.

(** [re.match(r, s) is not None]: some prefix of [s] is in the language of
    [r] (the match is anchored at the start only). *)
Fixpoint re_match (r : regex) (s : list ascii) : bool :=
  nullable r ||
  match s with
  | [] => false
  | c :: s' => re_match (deriv c r) s'
  end.

End Regex.

Import Regex.

Definition at_sign : ascii := "@"%char.
Definition dot : ascii := "."%char.

(** r"[^@]+@[^@]+\.[^@]+" *)
Definition email_re : regex :=
  Cat (Plus (NotChr at_sign))
   (Cat (Chr at_sign)
     (Cat (Plus (NotChr at_sign))
       (Cat (Chr dot) (Plus (NotChr at_sign))))).

(** [is_valid_email], the local function of [remove_rows_without_mail]. *)
Definition is_valid_email (email : value) : bool :=
  match email with
  | VStr s => re_match email_re (list_ascii_of_string s)
  | _ => false
  end.

(** ** Rows and tables *)

(** The derived label of [correlate_gender_age]. *)
Inductive AgeGroup : Type := above_40 | below_40.

(** The question columns, ['q1', 'q2', 'q3', 'q4', 'q5']. *)
Inductive QCol : Type := Q1 | Q2 | Q3 | Q4 | Q5.

Definition qcols : list QCol := [Q1; Q2; Q3; Q4; Q5].

(** One row of the table.  [score] and [age_group] are the columns added
    by [score_subjects] and [correlate_gender_age]: [None] while the column
    does not exist; a cell of the "UInt8" column [score] is [Some None] for
    [pd.NA].  A missing [gender] is [None]. *)
Record Row : Type := mkRow {
  age : value;
  gender : option string;
  email : value;
  q1 : value;
  q2 : value;
  q3 : value;
  q4 : value;
  q5 : value;
  score : option (option Z);
  age_group : option AgeGroup
}.

(** [row[col]] for a question column. *)
Definition get_q (c : QCol) (r : Row) : value :=
  match c with
  | Q1 => q1 r | Q2 => q2 r | Q3 => q3 r | Q4 => q4 r | Q5 => q5 r
  end.

Definition set_q (c : QCol) (v : value) (r : Row) : Row :=
  match c with
  | Q1 => mkRow (age r) (gender r) (email r) v (q2 r) (q3 r) (q4 r) (q5 r)
            (score r) (age_group r)
  | Q2 => mkRow (age r) (gender r) (email r) (q1 r) v (q3 r) (q4 r) (q5 r)
            (score r) (age_group r)
  | Q3 => mkRow (age r) (gender r) (email r) (q1 r) (q2 r) v (q4 r) (q5 r)
            (score r) (age_group r)
  | Q4 => mkRow (age r) (gender r) (email r) (q1 r) (q2 r) (q3 r) v (q5 r)
            (score r) (age_group r)
  | Q5 => mkRow (age r) (gender r) (email r) (q1 r) (q2 r) (q3 r) (q4 r) v
            (score r) (age_group r)
  end.

Definition set_age (v : value) (r : Row) : Row :=
  mkRow v (gender r) (email r) (q1 r) (q2 r) (q3 r) (q4 r) (q5 r)
    (score r) (age_group r).

Definition set_score (s : option Z) (r : Row) : Row :=
  mkRow (age r) (gender r) (email r) (q1 r) (q2 r) (q3 r) (q4 r) (q5 r)
    (Some s) (age_group r).

Definition set_age_group (g : AgeGroup) (r : Row) : Row :=
  mkRow (age r) (gender r) (email r) (q1 r) (q2 r) (q3 r) (q4 r) (q5 r)
    (score r) (Some g).

(** [row[['q1', 'q2', 'q3', 'q4', 'q5']]] *)
Definition questions (r : Row) : list value :=
  map (fun c => get_q c r) qcols.

(** [row.isnull().any()] over all the columns of the row. *)
Definition row_isnull_any (r : Row) : bool :=
  isnull (age r)
  || match gender r with None => true | Some _ => false end
  || isnull (email r)
  || existsb isnull (questions r)
  || match score r with Some None => true | _ => false end.

(** A DataFrame: its rows in order, each with its index label. *)
Definition DataFrame : Type := list (nat * Row).

Definition df_index (df : DataFrame) : list nat := map fst df.
Definition df_rows (df : DataFrame) : list Row := map snd df.

(** The table [pd.DataFrame(records)] builds: a RangeIndex 0 .. n-1. *)
Definition range_frame (rows : list Row) : DataFrame :=
  combine (seq 0 (length rows)) rows.

(** [df.reset_index(drop=True)] *)
Definition reset_index_drop (df : DataFrame) : DataFrame :=
  range_frame (df_rows df).

(** [df[mask]] for a boolean mask aligned with the rows. *)
Definition boolean_mask (df : DataFrame) (mask : list bool) : DataFrame :=
  map fst (filter snd (combine df mask)).

(** [df.at[idx, col] = v] *)
Definition at_set (idx : nat) (c : QCol) (v : value) (df : DataFrame)
  : DataFrame :=
  map (fun ir => if Nat.eqb (fst ir) idx
                 then (fst ir, set_q c v (snd ir)) else ir) df.

(** Assigning a whole column, [df[col] = f(df[col])]. *)
Definition map_rows (f : Row -> Row) (df : DataFrame) : DataFrame :=
  map (fun ir => (fst ir, f (snd ir))) df.

(** ** Exceptions and results *)

Inductive exn : Type := TypeError | ValueError | KeyError | OverflowError.

Inductive result (A : Type) : Type :=
| Ok (a : A)
| Raise (e : exn).

Arguments Ok {A} a.
Arguments Raise {A} e.

Definition rbind {A B : Type} (m : result A) (k : A -> result B) : result B :=
  match m with
  | Ok a => k a
  | Raise e => Raise e
  end.

Notation "x <- m ;; k" := (rbind m (fun x => k))
  (at level 61, m at next level, right associativity).

(** Running a fallible function over a list, stopping at the first
    exception. *)
Fixpoint mapM {A B : Type} (f : A -> result B) (l : list A)
  : result (list B) :=
  match l with
  | [] => Ok []
  | a :: l' => b <- f a ;; bs <- mapM f l' ;; Ok (b :: bs)
  end.

(** ** Numeric helpers *)

(** A float: a finite number or NaN ([None]).  The two infinities of
    binary64 are no values of this type; see [parsed] and [finite_part]
    for the strings that pandas reads as one. *)
Definition float : Type := option Q.

Definition of_float (x : float) : value :=
  match x with
  | Some q => VNum q
  | None => VNaN
  end.

(** The non-missing numbers of a list of cells ([skipna=True]); strings are
    not numbers and are dealt with by the callers. *)
Definition numbers (vs : list value) : list Q :=
  flat_map (fun v => match v with VNum x => [x] | _ => [] end) vs.

Definition Qsum (xs : list Q) : Q := fold_right Qplus 0%Q xs.

(** The mean of the present values; NaN when there is none. *)
Definition nanmean (xs : list Q) : float :=
  match xs with
  | [] => None
  | _ => Some (Qsum xs / inject_Z (Z.of_nat (length xs)))%Q
  end.

(** [np.arange(start, stop, step)] for a positive integer step. *)
Definition np_arange (start stop step : Z) : list Z :=
  map (fun k => start + Z.of_nat k * step)
      (seq 0 (Z.to_nat ((stop - start + step - 1) / step))).

(** Membership in the bin [lo, hi), or [lo, hi] for the last bin. *)
Definition in_bin (lo hi : Z) (closed : bool) (x : Q) : bool :=
  Qle_bool (inject_Z lo) x
  && (if closed then Qle_bool x (inject_Z hi)
      else negb (Qle_bool (inject_Z hi) x)).

Definition count_in_bin (lo hi : Z) (closed : bool) (xs : list Q) : Z :=
  Z.of_nat (length (filter (in_bin lo hi closed) xs)).

(** The counts of [np.histogram(xs, bins=edges)] for increasing edges: one
    count per pair of neighbouring edges, the last bin closed on the
    right; values outside the edges are counted nowhere. *)
Fixpoint np_histogram (xs : list Q) (edges : list Z) : list Z :=
  match edges with
  | lo :: ((hi :: rest) as tl) =>
      count_in_bin lo hi (match rest with [] => true | _ => false end) xs
      :: np_histogram xs tl
  | _ => []
  end.

Definition Zsum (l : list Z) : Z := fold_right Z.add 0 l.

(** ** Group keys of [groupby(['gender', 'age_group'])] *)

Definition key : Type := (string * AgeGroup)%type.

Definition AgeGroup_eqb (a b : AgeGroup) : bool :=
  match a, b with
  | above_40, above_40 | below_40, below_40 => true
  | _, _ => false
  end.

(** 'above_40' < 'below_40' as strings. *)
Definition AgeGroup_compare (a b : AgeGroup) : comparison :=
  match a, b with
  | above_40, below_40 => Lt
  | below_40, above_40 => Gt
  | _, _ => Eq
  end.

Definition key_eqb (k1 k2 : key) : bool :=
  String.eqb (fst k1) (fst k2) && AgeGroup_eqb (snd k1) (snd k2).

Definition key_compare (k1 k2 : key) : comparison :=
  match String.compare (fst k1) (fst k2) with
  | Eq => AgeGroup_compare (snd k1) (snd k2)
  | c => c
  end.

(** Insertion into the sorted list of distinct keys. *)
Fixpoint insert_key (k : key) (ks : list key) : list key :=
  match ks with
  | [] => [k]
  | k' :: ks' =>
      match key_compare k k' with
      | Lt => k :: ks
      | Eq => ks
      | Gt => k' :: insert_key k ks'
      end
  end.

Definition QCol_eqb (a b : QCol) : bool :=
  match a, b with
  | Q1, Q1 | Q2, Q2 | Q3, Q3 | Q4, Q4 | Q5, Q5 => true
  | _, _ => false
  end.

(** The key of a row; rows whose gender is missing belong to no group
    ([groupby] drops them). *)
Definition row_key (r : Row) : option key :=
  match gender r, age_group r with
  | Some g, Some a => Some (g, a)
  | _, _ => None
  end.

Definition in_group (k : key) (r : Row) : bool :=
  match row_key r with
  | Some k' => key_eqb k' k
  | None => false
  end.

(** The observed keys, sorted. *)
Definition group_keys (df : DataFrame) : list key :=
  fold_right
    (fun r ks => match row_key r with
                 | Some k => insert_key k ks
                 | None => ks
                 end)
    [] (df_rows df).

Definition group_rows (k : key) (df : DataFrame) : list Row :=
  filter (in_group k) (df_rows df).

(** A question column survives [mean(numeric_only=True)] when its dtype is
    numeric. *)
Definition numeric_column (c : QCol) (df : DataFrame) : bool :=
  forallb (fun r => is_float (get_q c r)) (df_rows df).

(** The mean of column [c] over the group [k], missing cells skipped. *)
Definition group_mean (df : DataFrame) (k : key) (c : QCol) : float :=
  nanmean (numbers (map (get_q c) (group_rows k df))).

(** The frame [groupby(...).mean(numeric_only=True)] gives, restricted to
    the question columns: the columns it kept, and one row per key. *)
Record Grouped : Type := mkGrouped {
  g_columns : list QCol;
  g_rows : list (key * list float)
}.

Definition groupby_mean (df : DataFrame) : Grouped :=
  let cols := filter (fun c => numeric_column c df) qcols in
  mkGrouped cols
    (map (fun k => (k, map (group_mean df k) cols)) (group_keys df)).

Fixpoint lookup_col (c : QCol) (cols : list QCol) (cells : list float)
  : float :=
  match cols, cells with
  | c' :: cols', x :: cells' =>
      if QCol_eqb c c' then x else lookup_col c cols' cells'
  | _, _ => None
  end.

(** [grouped[cols]]: a KeyError when one of the columns is not there. *)
Definition select_columns (cs : list QCol) (g : Grouped)
  : result (list (key * list float)) :=
  if forallb (fun c => existsb (QCol_eqb c) (g_columns g)) cs
  then Ok (map (fun kr => (fst kr,
                           map (fun c => lookup_col c (g_columns g) (snd kr))
                               cs))
               (g_rows g))
  else Raise KeyError.

(** ** The object *)

Record QuestionnaireAnalysis : Type := mkQA {
  data_fname : string;
  data : DataFrame
}.

Definition with_data (self : QuestionnaireAnalysis) (df : DataFrame)
  : QuestionnaireAnalysis :=
  mkQA (data_fname self) df.

(** A method: the object after the call, and what the call returned or
    raised. *)
Definition method (A : Type) : Type :=
  QuestionnaireAnalysis -> QuestionnaireAnalysis * result A.

(** One call after the other; an exception ends the run. *)
Definition and_then {A B : Type} (m : method A) (k : method B) : method B :=
  fun self =>
    match m self with
    | (self', Ok _) => k self'
    | (self', Raise e) => (self', Raise e)
    end.

Notation "m ;;; k" := (and_then m k) (at level 62, right associativity).

Definition is_str (v : value) : bool :=
  match v with
  | VStr _ => true
  | _ => false
  end.

(** [row[['q1', ..., 'q5']].mean(skipna=True)] on a row taken from
    [iterrows]: the sum of an object Series that holds a string raises. *)
Definition row_mean (row : Row) : result value :=
  if existsb is_str (questions row)
  then Raise TypeError
  else Ok (of_float (nanmean (numbers (questions row)))).

(** The body of the inner loop of [fill_na_with_mean], for the column
    [col] of the row [row] labelled [idx]; [acc] is [data_filled] so far,
    or the exception already raised. *)
Definition fill_step (idx : nat) (row : Row) (acc : result DataFrame)
    (col : QCol) : result DataFrame :=
  df <- acc ;;
  if isnull (get_q col row)
  then mean_value <- row_mean row ;; Ok (at_set idx col mean_value df)
  else Ok df.

(** The inner loop of [fill_na_with_mean] for one row. *)
Definition fill_row (idx : nat) (row : Row) (data_filled : DataFrame)
  : result DataFrame :=
  fold_left (fill_step idx row) qcols (Ok data_filled).

(** The outer loop: [rows] is what [iterrows] still has to yield. *)
Fixpoint fill_loop (rows : list (nat * Row)) (data_filled : DataFrame)
    (row_indices : list nat) : result (DataFrame * list nat) :=
  match rows with
  | [] => Ok (data_filled, row_indices)
  | (idx, row) :: rest =>
      if row_isnull_any row
      then df <- fill_row idx row data_filled ;;
           fill_loop rest df (row_indices ++ [idx])
      else fill_loop rest data_filled row_indices
  end.

(** [calculate_score], the local function of [score_subjects].  The mean
    is the exact one; it is the binary64 mean that the code floors, and
    the two floors agree on the rows of [exact_answers].  [int] of the
    floor of NaN, the mean of no number, is a ValueError. *)
Definition calculate_score (maximal_nans_per_sub : Z) (row : list value)
  : result (option Z) :=
  if maximal_nans_per_sub <? Z.of_nat (length (filter isnull row))
  then Ok None
  else match nanmean (numbers row) with
       | Some m => Ok (Some (Qfloor m))
       | None => Raise ValueError
       end.

(** A score that a cell of a "UInt8" column can hold. *)
Definition fits_UInt8 (s : option Z) : bool :=
  match s with
  | None => true
  | Some z => (0 <=? z) && (z <=? 255)
  end.

Definition is_NA (s : option Z) : bool :=
  match s with
  | None => true
  | Some _ => false
  end.

(** [scores.astype("UInt8")]: [pd.NA] stays, an integer must fit.  When
    every row is scored, [scores] is an int64 Series, and an integer that
    does not fit fails the safe cast with a TypeError; when some score is
    [pd.NA], [scores] is an object Series of Python integers, and the
    conversion of an integer that does not fit raises an OverflowError. *)
Definition astype_UInt8 (scores : list (option Z)) : result (list (option Z)) :=
  if forallb fits_UInt8 scores then Ok scores
  else if existsb is_NA scores then Raise OverflowError
  else Raise TypeError.

(** [df['score'] = scores] *)
Definition assign_score (df : DataFrame) (scores : list (option Z))
  : DataFrame :=
  map (fun irs => (fst (fst irs), set_score (snd irs) (snd (fst irs))))
      (combine df scores).

(** ['above_40' if age >= 40 else 'below_40'], on a cell of the coerced
    column: a comparison with NaN is False. *)
Definition label_age (a : value) : AgeGroup :=
  match a with
  | VNum x => if Qle_bool 40 x then above_40 else below_40
  | _ => below_40
  end.

Section Methods.

(** pandas' conversion of a string to a float; [None] when it fails or
    gives NaN. *)
Variable to_float : string -> float.

(** [pd.to_numeric(..., errors='coerce')] on one cell. *)
Definition to_numeric (v : value) : value :=
  match v with
  | VNone | VNaN => VNaN
  | VNum x => VNum x
  | VStr s => of_float (to_float s)
  end.

(** [self.data['age'] = pd.to_numeric(self.data['age'], errors='coerce')] *)
Definition coerce_age (df : DataFrame) : DataFrame :=
  map_rows (fun r => set_age (to_numeric (age r)) r) df.

(** The loop [for col in [...]: self.data[col] = pd.to_numeric(...)]. *)
Definition coerce_questions (df : DataFrame) : DataFrame :=
  fold_left
    (fun d col => map_rows (fun r => set_q col (to_numeric (get_q col r)) r) d)
    qcols df.

Definition show_age_distrib : method (list Z * list Z) :=
  fun self =>
    let data1 := coerce_age (data self) in
    let ages := numbers (map age (df_rows data1)) in
    let bins := np_arange 0 101 10 in
    let hist := np_histogram ages bins in
    (with_data self data1, Ok (hist, bins)).

Definition remove_rows_without_mail : method DataFrame :=
  fun self =>
    let valid_email_mask :=
      map (fun r => is_valid_email (email r)) (df_rows (data self)) in
    let cleaned_data :=
      reset_index_drop (boolean_mask (data self) valid_email_mask) in
    (self, Ok cleaned_data).

Definition fill_na_with_mean : method (DataFrame * list nat) :=
  fun self =>
    let data_filled := data self in
    (self, fill_loop data_filled data_filled []).

Definition score_subjects (maximal_nans_per_sub : Z) : method DataFrame :=
  fun self =>
    let data1 := coerce_questions (data self) in
    match
      (scores <- mapM (fun r => calculate_score maximal_nans_per_sub
                                  (questions r)) (df_rows data1) ;;
       astype_UInt8 scores)
    with
    | Ok scores =>
        let data2 := assign_score data1 scores in
        (with_data self data2, Ok data2)
    | Raise e => (with_data self data1, Raise e)
    end.

Definition correlate_gender_age : method (list (key * list float)) :=
  fun self =>
    let data1 := coerce_age (data self) in
    let data2 :=
      map_rows (fun r => set_age_group (label_age (age r)) r) data1 in
    let grouped := groupby_mean data2 in
    (with_data self data2, select_columns qcols grouped).

(** The script at the end of the file, after [read_data]. *)
Definition main : method (list (key * list float)) :=
  show_age_distrib ;;;
  remove_rows_without_mail ;;;
  fill_na_with_mean ;;;
  score_subjects 1 ;;;
  correlate_gender_age.

End Methods.

(** ** Definitions used to state the properties *)

(** A sample string-to-float conversion for the examples: strings of
    decimal digits. *)
Fixpoint digits_value (s : string) (acc : Z) : option Z :=
  match s with
  | EmptyString => Some acc
  | String c s' =>
      let n := Z.of_nat (nat_of_ascii c) in
      if (48 <=? n) && (n <=? 57)
      then digits_value s' (10 * acc + (n - 48))
      else None
  end.

Definition digits_to_float (s : string) : float :=
  match s with
  | EmptyString => None
  | _ => option_map inject_Z (digits_value s 0)
  end.

Definition no_at (w : list ascii) : Prop := Forall (fun c => c <> at_sign) w.

(** The email pattern in the words of the specification: the whole string
    is a local part without '@', an '@', a domain without '@', a '.', and
    at least one more character. *)
Definition claimed_valid_email (v : value) : Prop :=
  exists s l d t,
    v = VStr s /\
    list_ascii_of_string s = l ++ at_sign :: d ++ dot :: t /\
    l <> [] /\ no_at l /\ d <> [] /\ no_at d /\ t <> [].

(** The email pattern as the code matches it: the string starts with a
    local part, '@', a domain, '.', and at least one character other than
    '@'; anything may follow. *)
Definition starts_like_email (v : value) : Prop :=
  exists s l d t rest,
    v = VStr s /\
    list_ascii_of_string s = l ++ at_sign :: d ++ dot :: t ++ rest /\
    l <> [] /\ no_at l /\ d <> [] /\ no_at d /\ t <> [] /\ no_at t.

(** Two '@' in a row somewhere in the string. *)
Definition has_double_at (s : string) : Prop :=
  exists u v, list_ascii_of_string s = u ++ at_sign :: at_sign :: v.

(** A row that is complete and unremarkable but for its email. *)
Definition row_with_email (e : value) : Row :=
  mkRow (VNum 30) (Some "F"%string) e
        (VNum 1) (VNum 2) (VNum 3) (VNum 4) (VNum 5) None None.

(** Edges in increasing order, as [np.histogram] wants them. *)
Fixpoint ascending (l : list Z) : bool :=
  match l with
  | a :: ((b :: _) as tl) => (a <=? b) && ascending tl
  | _ => true
  end.

(** The number of rows of a table that satisfy [p]. *)
Definition count_rows (p : Row -> bool) (df : DataFrame) : Z :=
  Z.of_nat (length (filter p (df_rows df))).

(** The age of the row is a number once coerced. *)
Definition numeric_age (to_float : string -> float) (r : Row) : bool :=
  match to_numeric to_float (age r) with
  | VNum _ => true
  | _ => false
  end.

(** The age of the row is a number between 0 and 100, both included. *)
Definition age_within_bins (to_float : string -> float) (r : Row) : bool :=
  match to_numeric to_float (age r) with
  | VNum x => Qle_bool 0 x && Qle_bool x 100
  | _ => false
  end.

(** The age of the row is a number between 90 and 100, both included. *)
Definition age_in_last_bin (to_float : string -> float) (r : Row) : bool :=
  match to_numeric to_float (age r) with
  | VNum x => Qle_bool 90 x && Qle_bool x 100
  | _ => false
  end.

(** A complete row with the given age. *)
Definition row_with_age (a : value) : Row :=
  mkRow a (Some "F"%string) (VStr "a@b.c")
        (VNum 1) (VNum 2) (VNum 3) (VNum 4) (VNum 5) None None.

(** The score in the words of the specification, for the default threshold
    1, on the coerced question cells of a row: unscored ([None]) when more
    than one is missing, else the floor of the mean of the present ones. *)
Definition claimed_score (qs : list value) : option Z :=
  if 1 <? Z.of_nat (length (filter isnull qs))
  then None
  else option_map Qfloor (nanmean (numbers qs)).

(** The claim about [score_subjects()]: the call returns the stored table,
    in which every row has the claimed score. *)
Definition scored_as_claimed (to_float : string -> float)
    (self : QuestionnaireAnalysis) : Prop :=
  exists data2,
    score_subjects to_float 1 self = (with_data self data2, Ok data2) /\
    map score (df_rows data2)
    = map (fun r => Some (claimed_score
                            (map (to_numeric to_float) (questions r))))
          (df_rows (data self)).

(** Every score of the table can be a cell of a "UInt8" column. *)
Definition scores_fit_UInt8 (to_float : string -> float) (df : DataFrame)
  : Prop :=
  forall r z,
    In r (df_rows df) ->
    claimed_score (map (to_numeric to_float) (questions r)) = Some z ->
    0 <= z <= 255.

(** What the loop over the question columns does to one row. *)
Definition coerce_row (to_float : string -> float) (r : Row) : Row :=
  fold_left (fun r' col => set_q col (to_numeric to_float (get_q col r')) r')
            qcols r.

(** A complete row with the given answers. *)
Definition row_with_questions (a b c d e : value) : Row :=
  mkRow (VNum 30) (Some "F"%string) (VStr "a@b.c") a b c d e None None.

(** The mean of the present answers of a row, NaN when there is none. *)
Definition mean_of_row (row : Row) : value :=
  of_float (nanmean (numbers (questions row))).

(** Every question cell of [r'] that is missing in [row] is replaced by the
    mean of the present answers of [row]. *)
Definition fill_from (row r' : Row) : Row :=
  fold_left
    (fun acc col => if isnull (get_q col row)
                    then set_q col (mean_of_row row) acc else acc)
    qcols r'.

(** Imputation in the words of the specification: each missing question of
    the row is replaced by the mean of the row's own present questions. *)
Definition filled_row (r : Row) : Row := fill_from r r.

(** The row can be imputed without an exception: it does not hold both a
    missing question and a string among its questions. *)
Definition fillable (r : Row) : bool :=
  negb (existsb isnull (questions r) && existsb is_str (questions r)).

(** The claim about [fill_na_with_mean]: the object is as before, and the
    call returns a table with the same index whose rows are the imputed
    rows of the stored table. *)
Definition filled_as_claimed (self : QuestionnaireAnalysis) : Prop :=
  fst (fill_na_with_mean self) = self /\
  exists data_filled row_indices,
    snd (fill_na_with_mean self) = Ok (data_filled, row_indices) /\
    df_index data_filled = df_index (data self) /\
    df_rows data_filled = map filled_row (df_rows (data self)).

(** Changing the rows that carry the label [idx]. *)
Definition update_label (idx : nat) (f : Row -> Row) (df : DataFrame)
  : DataFrame :=
  map (fun ir => if Nat.eqb (fst ir) idx then (fst ir, f (snd ir)) else ir) df.

(** What the whole loop does to a row labelled [i]. *)
Definition apply_updates (rows : list (nat * Row)) (i : nat) (r' : Row)
  : Row :=
  fold_left
    (fun acc ir => if Nat.eqb i (fst ir) && row_isnull_any (snd ir)
                   then fill_from (snd ir) acc else acc)
    rows r'.

(** The object right after [read_data] has loaded the given rows. *)
Definition loaded (rows : list Row) : QuestionnaireAnalysis :=
  mkQA "data.json" (range_frame rows).

(** A row as [correlate_gender_age] stores it: the age coerced, the label
    derived from the coerced age. *)
Definition labelled (to_float : string -> float) (r : Row) : Row :=
  set_age_group (label_age (to_numeric to_float (age r)))
                (set_age (to_numeric to_float (age r)) r).


(** The question columns of the table all have a numeric dtype. *)
Definition questions_numeric (df : DataFrame) : Prop :=
  forall r c, In r (df_rows df) -> is_float (get_q c r) = true.

(** Keys in strictly increasing order. *)
Definition key_lt (k1 k2 : key) : Prop := key_compare k1 k2 = Lt.

(** A row with the given gender, age and one answer to all questions. *)
Definition row_of (g : string) (a : value) (q : value) : Row :=
  mkRow a (Some g) (VStr "a@b.c") q q q q q None None.

(** The call returned: it did not raise. *)
Definition returns {A : Type} (r : result A) : Prop := exists a, r = Ok a.

(** The claim that no operation raises, whatever the rows hold. *)
Definition never_raises (to_float : string -> float)
    (self : QuestionnaireAnalysis) : Prop :=
  returns (snd (show_age_distrib to_float self)) /\
  returns (snd (remove_rows_without_mail self)) /\
  returns (snd (fill_na_with_mean self)) /\
  returns (snd (score_subjects to_float 1 self)) /\
  returns (snd (correlate_gender_age to_float self)).

(** [after] has the rows of [before], under the same index, with the same
    gender and email, and every derived column [before] has. *)
Definition keeps_table (before after : DataFrame) : Prop :=
  df_index after = df_index before /\
  Forall2 (fun r r' =>
             gender r' = gender r /\ email r' = email r /\
             (score r <> None -> score r' <> None) /\
             (age_group r <> None -> age_group r' <> None))
          (df_rows before) (df_rows after).

(** Rows the whole script can process: no row holds both a missing
    question and a string among its questions, and no floor-of-mean lies
    outside 0..255.  Rows whose questions are numbers between 0 and 100 or
    missing are of this kind, whatever their age, gender and email. *)
Definition well_formed (to_float : string -> float) (df : DataFrame) : Prop :=
  (forall r, In r (df_rows df) -> fillable r = true) /\
  scores_fit_UInt8 to_float df.

(** An answer as the data model has it: a number between 0 and 100, or
    missing. *)
Definition plain_cell (v : value) : bool :=
  match v with
  | VNum x => Qle_bool 0 x && Qle_bool x 100
  | VNone | VNaN => true
  | VStr _ => false
  end.

Definition plain_rows (df : DataFrame) : Prop :=
  forall r, In r (df_rows df) -> forallb plain_cell (questions r) = true.

(** The claim about [show_age_distrib]: the counts add up to the number of
    rows with a numeric age, and there is one edge more than counts. *)
Definition counts_every_numeric_age (to_float : string -> float)
    (self : QuestionnaireAnalysis) : Prop :=
  exists hist bins,
    snd (show_age_distrib to_float self) = Ok (hist, bins) /\
    Zsum hist = count_rows (numeric_age to_float) (data self) /\
    length bins = S (length hist).

(** The rows of a table that have a gender. *)
Definition with_gender (df : DataFrame) : DataFrame :=
  filter (fun ir => match gender (snd ir) with
                    | Some _ => true
                    | None => false
                    end) df.

(** ** The parser with its infinite results, and exact answers *)

(** What pandas makes of a string: a finite number, NaN (also when the
    string is no number at all), or an infinity, as of "inf" and "-inf". *)
Inductive parsed : Type :=
| PNum (x : Q)
| PNaN
| PInf (negative : bool).

(** The parser as the methods above take it.  An infinity is no cell of
    this model; the properties stated with [parse] leave out the tables
    in which a string is read as one. *)
Definition finite_part (parse : string -> parsed) : string -> float :=
  fun s => match parse s with
           | PNum x => Some x
           | PNaN | PInf _ => None
           end.

(** A sample parser for the examples: "inf" and "-inf", and strings of
    decimal digits. *)
Definition sample_parse (s : string) : parsed :=
  if String.eqb s "inf" then PInf false
  else if String.eqb s "-inf" then PInf true
  else match digits_to_float s with
       | Some x => PNum x
       | None => PNaN
       end.

(** An integer of absolute value at most 2^50.  Sums of five of them, and
    the quotient of such a sum by 1 .. 5, are computed by binary64
    arithmetic with an error below 1/5, so that the floor of the float
    mean is the floor of the exact mean. *)
Definition small_integer (x : Q) : bool :=
  Qeq_bool x (inject_Z (Qfloor x)) && (Z.abs (Qfloor x) <=? 2 ^ 50).

(** A cell that is missing, a small integer, or a string read as NaN or
    as a small integer. *)
Definition exact_cell (parse : string -> parsed) (v : value) : bool :=
  match v with
  | VNone | VNaN => true
  | VNum x => small_integer x
  | VStr s => match parse s with
              | PNum x => small_integer x
              | PNaN => true
              | PInf _ => false
              end
  end.

(** Every answer of the table is an exact cell. *)
Definition exact_answers (parse : string -> parsed) (df : DataFrame) : Prop :=
  forall r, In r (df_rows df) ->
            forallb (exact_cell parse) (questions r) = true.

(** The integer a cell stands for, if any. *)
Definition cell_integer (parse : string -> parsed) (v : value) : option Z :=
  match v with
  | VNum x => Some (Qfloor x)
  | VStr s => match parse s with
              | PNum x => Some (Qfloor x)
              | PNaN | PInf _ => None
              end
  | VNone | VNaN => None
  end.

(** The answers a row gives. *)
Definition integer_answers (parse : string -> parsed) (r : Row) : list Z :=
  flat_map (fun v => match cell_integer parse v with
                     | Some z => [z]
                     | None => []
                     end) (questions r).

(** The score of a row of integer answers, in the words of the
    specification and in integer arithmetic: unscored when more than one
    of the five answers is missing, else the floor of the mean of the
    answers given, which is the quotient of their sum by their number. *)
Definition integer_score (parse : string -> parsed) (r : Row) : option Z :=
  let zs := integer_answers parse r in
  if 1 <? 5 - Z.of_nat (length zs)
  then None
  else Some (Zsum zs / Z.of_nat (length zs)).

(** Every score of the table is from 0 to 255. *)
Definition integer_scores_fit (parse : string -> parsed) (df : DataFrame)
  : Prop :=
  forall r z,
    In r (df_rows df) -> integer_score parse r = Some z -> 0 <= z <= 255.

(** The amended claim about [score_subjects()]: the call returns the
    stored table, in which every row has its integer score. *)
Definition scored_as_integers (parse : string -> parsed)
    (self : QuestionnaireAnalysis) : Prop :=
  exists data2,
    score_subjects (finite_part parse) 1 self
    = (with_data self data2, Ok data2) /\
    map score (df_rows data2)
    = map (fun r => Some (integer_score parse r)) (df_rows (data self)).

(** An answer that is missing: a null, or a string that is no number. *)
Definition unanswered (parse : string -> parsed) (v : value) : bool :=
  match v with
  | VNone | VNaN => true
  | VStr s => match parse s with
              | PNaN => true
              | PNum _ | PInf _ => false
              end
  | VNum _ => false
  end.

(** ** Ages, by bin and as stored *)

(** The number a cell of a numeric column stands for, if any: the number
    itself, or the number a string is read as. *)
Definition numeric_value (to_float : string -> float) (v : value) : float :=
  match v with
  | VNum x => Some x
  | VStr s => to_float s
  | VNone | VNaN => None
  end.

(** The age of the row is a number of the bin [i] of the histogram: from
    10 i, included, to 10 i + 10, excluded, but included for the last bin,
    [i] = 9. *)
Definition age_in_bin (to_float : string -> float) (i : nat) (r : Row)
  : bool :=
  match numeric_value to_float (age r) with
  | Some x =>
      Qle_bool (inject_Z (10 * Z.of_nat i)) x
      && (if Nat.eqb i 9
          then Qle_bool x 100
          else negb (Qle_bool (inject_Z (10 * Z.of_nat i + 10)) x))
  | None => false
  end.

(** No age of the table is a string that is read as an infinity. *)
Definition finite_ages (parse : string -> parsed) (df : DataFrame) : Prop :=
  forall r s b, In r (df_rows df) -> age r = VStr s -> parse s <> PInf b.

(** The age a method stores for a row: a number is kept, a null becomes
    NaN, a string becomes the number it is read as, or NaN when it is
    read as NaN (as is a string that is no number). *)
Definition age_stored_as (parse : string -> parsed) (before after : value)
  : Prop :=
  (forall x, before = VNum x -> after = VNum x) /\
  (isnull before = true -> after = VNaN) /\
  (forall s, before = VStr s ->
             (exists x, parse s = PNum x /\ after = VNum x) \/
             (parse s = PNaN /\ after = VNaN)).

(** A row after [show_age_distrib]: the age as stored, every other cell
    as before. *)
Definition row_after_show (parse : string -> parsed) (r r' : Row) : Prop :=
  age_stored_as parse (age r) (age r') /\
  gender r' = gender r /\ email r' = email r /\
  questions r' = questions r /\
  score r' = score r /\ age_group r' = age_group r.

(** The number an age stands for, if any: the number itself, or the
    number a string is read as. *)
Definition age_number (parse : string -> parsed) (v : value) : option Q :=
  match v with
  | VNum x => Some x
  | VStr s => match parse s with
              | PNum x => Some x
              | PNaN | PInf _ => None
              end
  | VNone | VNaN => None
  end.

(** A row after [correlate_gender_age]: the age as stored, the label
    above_40 exactly when the age stands for a number not below 40 and
    below_40 otherwise, every other cell as before. *)
Definition row_after_correlate (parse : string -> parsed) (r r' : Row)
  : Prop :=
  age_stored_as parse (age r) (age r') /\
  (age_group r' = Some above_40 \/ age_group r' = Some below_40) /\
  (age_group r' = Some above_40 <->
   exists x, age_number parse (age r) = Some x /\ (40 <= x)%Q) /\
  gender r' = gender r /\ email r' = email r /\
  questions r' = questions r /\ score r' = score r.

(** The age of the row stands for a number from 0 to 100. *)
Definition age_counted (to_float : string -> float) (r : Row) : bool :=
  match numeric_value to_float (age r) with
  | Some x => Qle_bool 0 x && Qle_bool x 100
  | None => false
  end.

(** ** The regular expression matcher is correct *)

Module RegexFacts.

Lemma matches_nil_nullable r w :
  matches r w -> w = [] -> nullable r = true.
Proof.
  induction 1; intros E; simpl; try discriminate; auto.
  - apply app_eq_nil in E. destruct E as [E1 E2].
    rewrite IHmatches1, IHmatches2; auto.
  - rewrite IHmatches; auto.
  - rewrite IHmatches; auto. apply orb_true_r.
Qed.

Lemma nullable_matches_nil r : nullable r = true -> matches r [].
Proof.
  induction r; simpl; intros H; try discriminate.
  - constructor.
  - apply andb_true_iff in H. destruct H as [H1 H2].
    change (@nil ascii) with (@nil ascii ++ []). constructor; auto.
  - apply orb_true_iff in H. destruct H as [H | H].
    + apply MAltL; auto.
    + apply MAltR; auto.
  - constructor.
Qed.

Lemma nullable_spec r : nullable r = true <-> matches r [].
Proof.
  split.
  - apply nullable_matches_nil.
  - intros H. eapply matches_nil_nullable; eauto.
Qed.

Lemma cat_inv r1 r2 w :
  matches (Cat r1 r2) w ->
  exists w1 w2, w = w1 ++ w2 /\ matches r1 w1 /\ matches r2 w2.
Proof. intros H. inversion H; subst. eauto. Qed.

Lemma alt_inv r1 r2 w :
  matches (Alt r1 r2) w -> matches r1 w \/ matches r2 w.
Proof. intros H. inversion H; subst; auto. Qed.

Lemma chr_inv a w : matches (Chr a) w -> w = [a].
Proof. intros H. inversion H; subst. reflexivity. Qed.

Lemma notchr_inv a w : matches (NotChr a) w -> exists b, w = [b] /\ b <> a.
Proof. intros H. inversion H; subst. eauto. Qed.

(** A non-empty word of [r*] starts with a non-empty word of [r]. *)
Lemma star_cons_inv r c w :
  matches (Star r) (c :: w) ->
  exists w1 w2, w = w1 ++ w2 /\ matches r (c :: w1) /\ matches (Star r) w2.
Proof.
  intros H. remember (Star r) as r' eqn:Er. remember (c :: w) as cw eqn:Ew.
  revert c w Ew. induction H; intros c0 w0 Ew; try discriminate.
  injection Er as Er. subst r0.
  destruct w1 as [| c1 w1].
  - simpl in Ew. apply IHmatches2; auto.
  - simpl in Ew. injection Ew as Ec Ew. subst c1 w0.
    exists w1, w2. auto.
Qed.

Lemma deriv_sound c r w : matches (deriv c r) w -> matches r (c :: w).
Proof.
  revert w. induction r; simpl; intros w H.
  - inversion H.
  - inversion H.
  - destruct (Ascii.eqb_spec c a) as [E | E].
    + subst. inversion H; subst. constructor.
    + inversion H.
  - destruct (Ascii.eqb_spec c a) as [E | E].
    + inversion H.
    + inversion H; subst. constructor. assumption.
  - destruct (nullable r1) eqn:N.
    + apply alt_inv in H. destruct H as [H | H].
      * apply cat_inv in H. destruct H as (w1 & w2 & E & H1 & H2). subst.
        change (c :: w1 ++ w2) with ((c :: w1) ++ w2). constructor; auto.
      * change (c :: w) with ([] ++ c :: w). constructor; auto.
        apply nullable_matches_nil; assumption.
    + apply cat_inv in H. destruct H as (w1 & w2 & E & H1 & H2). subst.
      change (c :: w1 ++ w2) with ((c :: w1) ++ w2). constructor; auto.
  - apply alt_inv in H. destruct H as [H | H].
    + apply MAltL; auto.
    + apply MAltR; auto.
  - apply cat_inv in H. destruct H as (w1 & w2 & E & H1 & H2). subst.
    change (c :: w1 ++ w2) with ((c :: w1) ++ w2). constructor; auto.
Qed.

Lemma deriv_complete c r w : matches r (c :: w) -> matches (deriv c r) w.
Proof.
  revert w. induction r; simpl; intros w H.
  - inversion H.
  - inversion H.
  - apply chr_inv in H. injection H as E1 E2. subst.
    rewrite Ascii.eqb_refl. constructor.
  - apply notchr_inv in H. destruct H as (b & E & Hb).
    injection E as E1 E2. subst.
    destruct (Ascii.eqb_spec b a) as [E | E]; [contradiction | constructor].
  - apply cat_inv in H. destruct H as (w1 & w2 & E & H1 & H2).
    destruct w1 as [| c1 w1].
    + simpl in E. subst w2.
      rewrite (matches_nil_nullable _ _ H1 eq_refl).
      apply MAltR. auto.
    + simpl in E. injection E as Ec E. subst c1 w.
      destruct (nullable r1).
      * apply MAltL. constructor; auto.
      * constructor; auto.
  - apply alt_inv in H. destruct H as [H | H].
    + apply MAltL; auto.
    + apply MAltR; auto.
  - apply star_cons_inv in H. destruct H as (w1 & w2 & E & H1 & H2). subst.
    constructor; auto.
Qed.

Lemma re_match_spec r s :
  re_match r s = true <-> exists p rest, s = p ++ rest /\ matches r p.
Proof.
  revert r. induction s as [| c s IH]; intros r; simpl.
  - rewrite orb_false_r. split.
    + intros H. exists [], []. split; auto. apply nullable_matches_nil; auto.
    + intros (p & rest & E & H). symmetry in E.
      apply app_eq_nil in E. destruct E as [E1 E2]. subst.
      apply nullable_spec; auto.
  - rewrite orb_true_iff, IH. split.
    + intros [H | (p & rest & E & H)].
      * exists [], (c :: s). split; auto. apply nullable_matches_nil; auto.
      * exists (c :: p), rest. subst. split; auto. apply deriv_sound; auto.
    + intros (p & rest & E & H). destruct p as [| c' p].
      * left. apply nullable_spec; auto.
      * right. simpl in E. injection E as Ec E. subst c' s.
        exists p, rest. split; auto. apply deriv_complete; auto.
Qed.

Lemma star_notchr a w :
  matches (Star (NotChr a)) w <-> Forall (fun c => c <> a) w.
Proof.
  split.
  - intros H. remember (Star (NotChr a)) as r eqn:Er.
    induction H; try discriminate.
    + constructor.
    + injection Er as Er. subst r.
      apply notchr_inv in H. destruct H as (b & E & Hb). subst w1.
      simpl. constructor; auto.
  - induction 1 as [| c w Hc Hw IH].
    + constructor.
    + change (c :: w) with ([c] ++ w). constructor; auto.
      constructor; auto.
Qed.

Lemma plus_notchr a w :
  matches (Plus (NotChr a)) w <-> w <> [] /\ Forall (fun c => c <> a) w.
Proof.
  unfold Plus. split.
  - intros H. apply cat_inv in H. destruct H as (w1 & w2 & E & H1 & H2).
    apply notchr_inv in H1. destruct H1 as (b & E1 & Hb). subst.
    apply star_notchr in H2. simpl. split; [discriminate | constructor; auto].
  - intros [Hn Hw]. destruct w as [| c w]; [contradiction |].
    inversion Hw; subst.
    change (c :: w) with ([c] ++ w). constructor.
    + constructor; auto.
    + apply star_notchr; auto.
Qed.

End RegexFacts.

Import RegexFacts.

(** The language of the email pattern. *)
Lemma email_re_matches p :
  matches email_re p <->
  exists l d t,
    p = l ++ at_sign :: d ++ dot :: t /\
    l <> [] /\ no_at l /\ d <> [] /\ no_at d /\ t <> [] /\ no_at t.
Proof.
  unfold email_re, no_at. split.
  - intros H.
    apply cat_inv in H. destruct H as (l & w1 & E1 & Hl & H).
    apply cat_inv in H. destruct H as (a & w2 & E2 & Ha & H).
    apply cat_inv in H. destruct H as (d & w3 & E3 & Hd & H).
    apply cat_inv in H. destruct H as (o & t & E4 & Ho & Ht).
    apply chr_inv in Ha. apply chr_inv in Ho.
    apply plus_notchr in Hl. apply plus_notchr in Hd. apply plus_notchr in Ht.
    subst. exists l, d, t. simpl. tauto.
  - intros (l & d & t & E & Hl1 & Hl2 & Hd1 & Hd2 & Ht1 & Ht2). subst p.
    constructor; [apply plus_notchr; auto |].
    change (at_sign :: d ++ dot :: t) with ([at_sign] ++ d ++ dot :: t).
    constructor; [constructor |].
    constructor; [apply plus_notchr; auto |].
    change (dot :: t) with ([dot] ++ t).
    constructor; [constructor | apply plus_notchr; auto].
Qed.

(** What [is_valid_email] accepts. *)
Lemma is_valid_email_spec v :
  is_valid_email v = true <-> starts_like_email v.
Proof.
  unfold starts_like_email. destruct v as [| | x | s]; simpl.
  - split; [discriminate | intros (s & l & d & t & rest & E & _); discriminate].
  - split; [discriminate | intros (s & l & d & t & rest & E & _); discriminate].
  - split; [discriminate | intros (s & l & d & t & rest & E & _); discriminate].
  - rewrite re_match_spec. split.
    + intros (p & rest & E & H). apply email_re_matches in H.
      destruct H as (l & d & t & Ep & H). subst p.
      exists s, l, d, t, rest. split; auto. split; [| tauto].
      rewrite E. rewrite <- app_assoc. simpl. rewrite <- app_assoc. reflexivity.
    + intros (s' & l & d & t & rest & E & Es & H). injection E as E. subst s'.
      exists (l ++ at_sign :: d ++ dot :: t), rest. split.
      * rewrite Es. rewrite <- app_assoc. simpl. rewrite <- app_assoc.
        reflexivity.
      * apply email_re_matches. exists l, d, t. tauto.
Qed.

(** ** Tables *)

Lemma range_frame_rows rows : df_rows (range_frame rows) = rows.
Proof.
  unfold df_rows, range_frame.
  generalize 0%nat. induction rows as [| r rows IH]; intros n; simpl.
  - reflexivity.
  - rewrite IH. reflexivity.
Qed.

Lemma range_frame_index rows :
  df_index (range_frame rows) = seq 0 (length rows).
Proof.
  unfold df_index, range_frame.
  generalize 0%nat. induction rows as [| r rows IH]; intros n; simpl.
  - reflexivity.
  - rewrite IH. reflexivity.
Qed.

Lemma range_frame_length rows : length (range_frame rows) = length rows.
Proof.
  unfold range_frame. rewrite length_combine, length_seq. apply Nat.min_id.
Qed.

(** The labels of a loaded table are distinct. *)
Lemma range_frame_NoDup rows : NoDup (df_index (range_frame rows)).
Proof. rewrite range_frame_index. apply seq_NoDup. Qed.

Lemma boolean_mask_filter (f : Row -> bool) (df : DataFrame) :
  boolean_mask df (map f (df_rows df)) = filter (fun ir => f (snd ir)) df.
Proof.
  unfold boolean_mask, df_rows.
  induction df as [| [i r] df IH]; simpl.
  - reflexivity.
  - destruct (f r); simpl; rewrite IH; reflexivity.
Qed.

Lemma filter_rows (f : Row -> bool) (df : DataFrame) :
  df_rows (filter (fun ir => f (snd ir)) df) = filter f (df_rows df).
Proof.
  unfold df_rows. induction df as [| [i r] df IH]; simpl.
  - reflexivity.
  - destruct (f r); simpl; rewrite IH; reflexivity.
Qed.

Lemma map_rows_rows f df : df_rows (map_rows f df) = map f (df_rows df).
Proof.
  unfold df_rows, map_rows. rewrite !map_map. reflexivity.
Qed.

Lemma map_rows_index f df : df_index (map_rows f df) = df_index df.
Proof.
  unfold df_index, map_rows. rewrite map_map. reflexivity.
Qed.

Lemma map_rows_length f df : length (map_rows f df) = length df.
Proof. unfold map_rows. apply length_map. Qed.

Lemma map_rows_compose f g df :
  map_rows f (map_rows g df) = map_rows (fun r => f (g r)) df.
Proof. unfold map_rows. rewrite map_map. reflexivity. Qed.

(** ** The email filter *)

(** What [remove_rows_without_mail] returns. *)
Lemma remove_rows_without_mail_eq self :
  remove_rows_without_mail self =
  (self, Ok (range_frame
               (filter (fun r => is_valid_email (email r))
                       (df_rows (data self))))).
Proof.
  unfold remove_rows_without_mail, reset_index_drop.
  rewrite (boolean_mask_filter (fun r => is_valid_email (email r))).
  do 3 f_equal. apply (filter_rows (fun r => is_valid_email (email r))).
Qed.

Example valid_email_a_b_c : is_valid_email (VStr "a@b.c") = true.
Proof. reflexivity. Qed.

Example invalid_email_notanemail : is_valid_email (VStr "notanemail") = false.
Proof. reflexivity. Qed.

Example invalid_email_double_at : is_valid_email (VStr "a@@b.com") = false.
Proof. reflexivity. Qed.

Example invalid_email_number : is_valid_email (VNum 5) = false.
Proof. reflexivity. Qed.

(** C2, as stated, fails.  The string "a@b.@" has the shape the claim
    calls valid (local part "a", domain "b", a '.', one more character),
    yet its row is dropped; the string "a@b.c@@" contains a double '@',
    which the claim lists as malformed, yet its row is retained. *)
Lemma email_filter_claim_counterexample :
  (claimed_valid_email (VStr "a@b.@") /\
   snd (remove_rows_without_mail
          (loaded [row_with_email (VStr "a@b.@")]))
   = Ok []) /\
  (has_double_at "a@b.c@@" /\
   snd (remove_rows_without_mail
          (loaded [row_with_email (VStr "a@b.c@@")]))
   = Ok [(0%nat, row_with_email (VStr "a@b.c@@"))]).
Proof.
  split; split.
  - exists "a@b.@"%string, ["a"%char], ["b"%char], ["@"%char].
    repeat split; try discriminate; repeat constructor; discriminate.
  - reflexivity.
  - exists (list_ascii_of_string "a@b.c"), []. reflexivity.
  - reflexivity.
Qed.

(** C2, amended: an email is valid exactly when it is a string that starts
    with at least one non-'@' character, an '@', at least one non-'@'
    character, a '.', and at least one non-'@' character (the pattern is
    anchored at the start only, so anything may follow).  The filter
    returns exactly the rows of the stored table whose email is valid, in
    their order; every other row (email not a string, or not of that
    shape) is dropped. *)
Theorem email_filter_keeps_valid_rows (self : QuestionnaireAnalysis) :
  exists cleaned,
    snd (remove_rows_without_mail self) = Ok cleaned /\
    df_rows cleaned =
      filter (fun r => is_valid_email (email r)) (df_rows (data self)) /\
    (forall v, is_valid_email v = true <-> starts_like_email v) /\
    (forall r, In r (df_rows cleaned) <->
               In r (df_rows (data self)) /\ starts_like_email (email r)).
Proof.
  rewrite remove_rows_without_mail_eq. simpl.
  eexists. split; [reflexivity |].
  rewrite range_frame_rows. split; [reflexivity |].
  split; [apply is_valid_email_spec |].
  intros r. rewrite filter_In, is_valid_email_spec. reflexivity.
Qed.

(** C4: the email filter leaves the object as it was; what it returns is a
    new table holding the valid rows under the index 0, 1, ..; a second
    call on the object returns the same table, of the same size. *)
Theorem email_filter_does_not_mutate (self : QuestionnaireAnalysis) :
  fst (remove_rows_without_mail self) = self /\
  exists cleaned,
    snd (remove_rows_without_mail self) = Ok cleaned /\
    df_rows cleaned =
      filter (fun r => is_valid_email (email r)) (df_rows (data self)) /\
    df_index cleaned = seq 0 (length cleaned) /\
    (length cleaned <= length (data self))%nat /\
    exists again,
      snd (remove_rows_without_mail (fst (remove_rows_without_mail self)))
      = Ok again /\
      again = cleaned /\ length again = length cleaned.
Proof.
  rewrite remove_rows_without_mail_eq. cbn [fst snd].
  rewrite remove_rows_without_mail_eq. cbn [fst snd].
  split; [reflexivity |].
  eexists. split; [reflexivity |].
  rewrite range_frame_rows, range_frame_index, range_frame_length.
  split; [reflexivity |]. split; [reflexivity |]. split.
  - unfold df_rows. rewrite <- (length_map snd (data self)).
    apply filter_length_le.
  - eexists. split; [reflexivity |]. split; [reflexivity |].
    apply range_frame_length.
Qed.

(** ** The age histogram *)

Lemma filter_length_split {A : Type} (p q r : A -> bool) (xs : list A) :
  (forall x, r x = p x || q x) ->
  (forall x, p x && q x = false) ->
  (length (filter p xs) + length (filter q xs) = length (filter r xs))%nat.
Proof.
  intros Hr Hd. induction xs as [| x xs IH]; simpl.
  - reflexivity.
  - rewrite (Hr x). specialize (Hd x).
    destruct (p x), (q x); simpl in *; try discriminate; lia.
Qed.

Lemma ascending_last lo l d :
  ascending (lo :: l) = true -> lo <= last (lo :: l) d.
Proof.
  revert lo. induction l as [| b l IH]; intros lo H.
  - simpl. lia.
  - simpl in H. apply andb_true_iff in H. destruct H as [H1 H2].
    apply Z.leb_le in H1. specialize (IH b H2).
    change (last (lo :: b :: l) d) with (last (b :: l) d). lia.
Qed.

Lemma in_bin_split lo hi top x :
  lo <= hi -> hi <= top ->
  in_bin lo top true x = in_bin lo hi false x || in_bin hi top true x.
Proof.
  intros H1 H2. unfold in_bin.
  rewrite Zle_Qle in H1. rewrite Zle_Qle in H2.
  destruct (Qle_bool (inject_Z lo) x) eqn:E1;
    destruct (Qle_bool (inject_Z hi) x) eqn:E2;
    destruct (Qle_bool x (inject_Z top)) eqn:E3; simpl; try reflexivity;
    repeat match goal with
           | H : Qle_bool _ _ = true |- _ => apply Qle_bool_iff in H
           | H : Qle_bool _ _ = false |- _ =>
               apply not_true_iff_false in H; rewrite Qle_bool_iff in H
           end; exfalso; lra.
Qed.

Lemma in_bin_disjoint lo hi top x :
  in_bin lo hi false x && in_bin hi top true x = false.
Proof.
  unfold in_bin. destruct (Qle_bool (inject_Z hi) x); simpl.
  - rewrite andb_false_r. reflexivity.
  - apply andb_false_r.
Qed.

Lemma last_default_irrelevant (a : Z) l d d' :
  last (a :: l) d = last (a :: l) d'.
Proof.
  revert a. induction l as [| b l IH]; intros a.
  - reflexivity.
  - change (last (b :: l) d = last (b :: l) d'). apply IH.
Qed.

(** The counts of a histogram add up to the number of values between the
    first and the last edge. *)
Lemma np_histogram_sum xs rest lo hi :
  ascending (lo :: hi :: rest) = true ->
  Zsum (np_histogram xs (lo :: hi :: rest))
  = count_in_bin lo (last (hi :: rest) hi) true xs.
Proof.
  revert lo hi. induction rest as [| h2 rest IH]; intros lo hi H.
  - simpl. lia.
  - change (np_histogram xs (lo :: hi :: h2 :: rest))
      with (count_in_bin lo hi false xs :: np_histogram xs (hi :: h2 :: rest)).
    change (Zsum (count_in_bin lo hi false xs
                  :: np_histogram xs (hi :: h2 :: rest)))
      with (count_in_bin lo hi false xs
            + Zsum (np_histogram xs (hi :: h2 :: rest))).
    simpl in H. apply andb_true_iff in H. destruct H as [H1 H2].
    apply Z.leb_le in H1.
    rewrite (IH hi h2 H2).
    change (last (hi :: h2 :: rest) hi) with (last (h2 :: rest) hi).
    assert (Hl : last (h2 :: rest) h2 = last (h2 :: rest) hi)
      by apply last_default_irrelevant.
    rewrite Hl.
    assert (Htop : hi <= last (h2 :: rest) hi).
    { rewrite <- Hl. apply andb_true_iff in H2.
      pose proof (ascending_last h2 rest h2) as Ha.
      destruct rest as [| a rest'].
      - simpl. destruct H2 as [H2 _]. apply Z.leb_le in H2. exact H2.
      - destruct H2 as [H2 H3]. apply Z.leb_le in H2.
        specialize (Ha H3). lia. }
    unfold count_in_bin. rewrite <- Nat2Z.inj_add. f_equal.
    apply filter_length_split.
    + intros x. apply in_bin_split; assumption.
    + intros x. apply in_bin_disjoint.
Qed.

Lemma bins_0_to_100 :
  np_arange 0 101 10 = [0; 10; 20; 30; 40; 50; 60; 70; 80; 90; 100].
Proof. reflexivity. Qed.

Section AgeDistribution.

Variable to_float : string -> float.

(** Counting among the ages that survive [dropna] is counting among the
    rows whose coerced age is a number. *)
Lemma count_ages (p : Q -> bool) (df : DataFrame) :
  length (filter p (numbers (map age (df_rows (coerce_age to_float df)))))
  = length (filter (fun r => match to_numeric to_float (age r) with
                             | VNum x => p x
                             | _ => false
                             end) (df_rows df)).
Proof.
  unfold coerce_age. rewrite map_rows_rows. unfold df_rows.
  induction df as [| [i r] df IH]; simpl.
  - reflexivity.
  - destruct (to_numeric to_float (age r)) as [| | x | s]; simpl; auto.
    destruct (p x); simpl; rewrite IH; reflexivity.
Qed.

(** What [show_age_distrib] returns. *)
Lemma show_age_distrib_eq self :
  show_age_distrib to_float self =
  (with_data self (coerce_age to_float (data self)),
   Ok (np_histogram
         (numbers (map age (df_rows (coerce_age to_float (data self)))))
         [0; 10; 20; 30; 40; 50; 60; 70; 80; 90; 100],
       [0; 10; 20; 30; 40; 50; 60; 70; 80; 90; 100])).
Proof. reflexivity. Qed.

Lemma to_numeric_numeric_value v :
  to_numeric to_float v = of_float (numeric_value to_float v).
Proof. destruct v; reflexivity. Qed.

(** Counting the rows whose coerced age satisfies [p] is counting the rows
    whose age stands for a number that satisfies [p]. *)
Lemma count_ages_numeric_value (p : Q -> bool) (q : Row -> bool) df :
  (forall r, q r = match numeric_value to_float (age r) with
                   | Some x => p x
                   | None => false
                   end) ->
  Z.of_nat (length (filter p
     (numbers (map age (df_rows (coerce_age to_float df))))))
  = count_rows q df.
Proof.
  intros Hq. rewrite count_ages. unfold count_rows. do 2 f_equal.
  apply filter_ext. intros r. rewrite Hq, to_numeric_numeric_value.
  destruct (numeric_value to_float (age r)); reflexivity.
Qed.

(** C5, amended: the ten bucket counts are, bucket by bucket, the numbers
    of rows whose age stands for a number of that bucket: from 10 i,
    included, to 10 i + 10, excluded, for bucket i, and from 90 to 100,
    both included, for the last one.  They add up to the number of rows
    whose age is a number between 0 and 100, both included; rows whose age
    is missing, not numeric, below 0 or above 100 are counted in no
    bucket.  The edges returned are 0, 10, .., 100, one edge more than
    counts. *)
Theorem age_histogram_counts (self : QuestionnaireAnalysis) :
  exists hist bins,
    snd (show_age_distrib to_float self) = Ok (hist, bins) /\
    Zsum hist = count_rows (age_within_bins to_float) (data self) /\
    length hist = 10%nat /\
    length bins = S (length hist) /\
    bins = [0; 10; 20; 30; 40; 50; 60; 70; 80; 90; 100] /\
    nth 9 hist 0 = count_rows (age_in_last_bin to_float) (data self) /\
    hist = map (fun i => count_rows (age_in_bin to_float i) (data self))
               (seq 0 10) /\
    Zsum hist = count_rows (age_counted to_float) (data self).
Proof.
  rewrite show_age_distrib_eq. cbn [snd].
  eexists. eexists. split; [reflexivity |].
  split; [| split; [reflexivity | split; [reflexivity | split;
                                           [reflexivity | split;
                                                          [| split]]]]].
  - rewrite np_histogram_sum by reflexivity.
    unfold count_in_bin, count_rows. rewrite count_ages. reflexivity.
  - cbn [np_histogram nth]. unfold count_in_bin, count_rows.
    rewrite count_ages. reflexivity.
  - cbn [np_histogram seq map]. unfold count_in_bin.
    repeat (f_equal;
            [apply count_ages_numeric_value; intros r; reflexivity |]).
    f_equal. apply count_ages_numeric_value. intros r. reflexivity.
  - rewrite np_histogram_sum by reflexivity. unfold count_in_bin.
    apply count_ages_numeric_value. intros r. reflexivity.
Qed.

(** The buckets of four ages: 12 and 19.5 in bucket 1, 100 in the last
    one, 150 in none. *)
Example age_histogram_example :
  snd (show_age_distrib to_float
         (loaded [row_with_age (VNum 12); row_with_age (VNum 100);
                  row_with_age (VNum (39 # 2)); row_with_age (VNum 150)]))
  = Ok ([0; 2; 0; 0; 0; 0; 0; 0; 0; 1],
        [0; 10; 20; 30; 40; 50; 60; 70; 80; 90; 100]).
Proof. reflexivity. Qed.

End AgeDistribution.

(** C5, as stated, fails: a table whose only row has the age 150 has one
    row with a numeric age, and every bucket count is 0. *)
Lemma age_histogram_claim_counterexample :
  snd (show_age_distrib digits_to_float (loaded [row_with_age (VNum 150)]))
  = Ok ([0; 0; 0; 0; 0; 0; 0; 0; 0; 0],
        [0; 10; 20; 30; 40; 50; 60; 70; 80; 90; 100]) /\
  count_rows (numeric_age digits_to_float)
             (data (loaded [row_with_age (VNum 150)])) = 1 /\
  ~ counts_every_numeric_age digits_to_float
      (loaded [row_with_age (VNum 150)]).
Proof.
  split; [reflexivity |]. split; [reflexivity |].
  intros (hist & bins & H & Hsum & _).
  injection H as <- <-. discriminate Hsum.
Qed.

(** ** Effects on the stored table *)

Section StoredAge.

Variable to_float : string -> float.

Lemma to_numeric_is_float v : is_float (to_numeric to_float v) = true.
Proof.
  destruct v as [| | x | s]; simpl; try reflexivity.
  destruct (to_float s); reflexivity.
Qed.

Lemma to_numeric_idempotent v :
  to_numeric to_float (to_numeric to_float v) = to_numeric to_float v.
Proof.
  destruct v as [| | x | s]; simpl; try reflexivity.
  destruct (to_float s); reflexivity.
Qed.

Lemma label_age_numeric_value v :
  label_age (to_numeric to_float v) = above_40 <->
  exists x, numeric_value to_float v = Some x /\ (40 <= x)%Q.
Proof.
  rewrite to_numeric_numeric_value.
  destruct (numeric_value to_float v) as [x |]; simpl.
  - destruct (Qle_bool 40 x) eqn:L.
    + apply Qle_bool_iff in L. split; [intros _; exists x; auto | reflexivity].
    + split; [discriminate |].
      intros (y & E & Hy). injection E as <-.
      apply Qle_bool_iff in Hy. congruence.
  - split; [discriminate | intros (y & E & _); discriminate E].
Qed.

End StoredAge.

Lemma Forall2_map_right_in {A B : Type} (P : A -> B -> Prop) (f : A -> B)
    (l : list A) :
  (forall a, In a l -> P a (f a)) -> Forall2 P l (map f l).
Proof.
  induction l as [| a l IH]; intros H; simpl; constructor.
  - apply H. left. reflexivity.
  - apply IH. intros b Hb. apply H. right. exact Hb.
Qed.

Section StoredAgeParsed.

Variable parse : string -> parsed.

Lemma age_number_numeric_value v :
  age_number parse v = numeric_value (finite_part parse) v.
Proof.
  destruct v as [| | x | s]; reflexivity.
Qed.

Lemma to_numeric_stored v :
  (forall s b, v = VStr s -> parse s <> PInf b) ->
  age_stored_as parse v (to_numeric (finite_part parse) v).
Proof.
  intros Hfin. unfold age_stored_as. repeat split.
  - intros x ->. reflexivity.
  - destruct v; simpl; intros H; try reflexivity; discriminate H.
  - intros s ->. simpl. unfold finite_part.
    destruct (parse s) as [x | | b] eqn:E.
    + left. exists x. split; reflexivity.
    + right. split; reflexivity.
    + exfalso. apply (Hfin s b eq_refl). exact E.
Qed.

(** C10: [show_age_distrib] and [correlate_gender_age] both store the
    coerced age column in the object.  On a table in which no age is a
    string read as an infinity, row by row, after either call: an age
    that was a number is that number, an age that was null is NaN, an age
    that was a string is the number the string is read as, or NaN when it
    is read as NaN, as is a string that is no number; and it stays so
    under further coercion.  The index and every other cell are as
    before, but that [correlate_gender_age] also stores the column
    [age_group], above_40 exactly for the rows whose age stands for a
    number not below 40 and below_40 for the others, whether or not the
    call then returns. *)
Theorem age_coercion_is_stored (self : QuestionnaireAnalysis) :
  finite_ages parse (data self) ->
  let to_float := finite_part parse in
  let after_hist := fst (show_age_distrib to_float self) in
  let after_corr := fst (correlate_gender_age to_float self) in
  df_rows (data after_hist)
  = map (fun r => set_age (to_numeric to_float (age r)) r)
        (df_rows (data self)) /\
  df_rows (data after_corr)
  = map (fun r => set_age_group (label_age (to_numeric to_float (age r)))
                    (set_age (to_numeric to_float (age r)) r))
        (df_rows (data self)) /\
  df_index (data after_hist) = df_index (data self) /\
  df_index (data after_corr) = df_index (data self) /\
  (forall r, In r (df_rows (data after_hist)) ->
             is_float (age r) = true /\
             to_numeric to_float (age r) = age r) /\
  (forall r, In r (df_rows (data after_corr)) ->
             is_float (age r) = true /\
             to_numeric to_float (age r) = age r /\
             age_group r = Some (label_age (age r))) /\
  Forall2 (row_after_show parse)
          (df_rows (data self)) (df_rows (data after_hist)) /\
  Forall2 (row_after_correlate parse)
          (df_rows (data self)) (df_rows (data after_corr)).
Proof.
  intros Hfin. cbn zeta.
  unfold show_age_distrib, correlate_gender_age, coerce_age.
  cbn [fst data with_data].
  rewrite map_rows_compose, !map_rows_rows, !map_rows_index.
  split; [reflexivity |]. split; [reflexivity |].
  split; [reflexivity |]. split; [reflexivity |].
  split; [| split; [| split]].
  - intros r H. apply in_map_iff in H. destruct H as (r0 & <- & _).
    split; [apply to_numeric_is_float | apply to_numeric_idempotent].
  - intros r H. apply in_map_iff in H. destruct H as (r0 & <- & _).
    split; [apply to_numeric_is_float |].
    split; [apply to_numeric_idempotent | reflexivity].
  - apply Forall2_map_right_in. intros r Hr. unfold row_after_show.
    split; [| repeat split].
    apply to_numeric_stored. intros s b Hs. apply (Hfin r s b Hr Hs).
  - apply Forall2_map_right_in. intros r Hr. unfold row_after_correlate.
    cbn [set_age_group set_age age age_group gender email score].
    split.
    { apply to_numeric_stored. intros s b Hs. apply (Hfin r s b Hr Hs). }
    split;
      [destruct (label_age (to_numeric (finite_part parse) (age r))); auto |].
    split; [| repeat split].
    rewrite age_number_numeric_value, <- label_age_numeric_value.
    split; [intros H; injection H as H; exact H | intros ->; reflexivity].
Qed.

End StoredAgeParsed.

Lemma age_coercion_is_stored_witness :
  finite_ages sample_parse
    (data (loaded [row_with_age (VStr "41"); row_with_age (VStr "unknown");
                   row_with_age VNone; row_with_age (VNum 7)])) /\
  Forall2 (row_after_correlate sample_parse)
    (df_rows (data (loaded [row_with_age (VStr "41");
                            row_with_age (VStr "unknown");
                            row_with_age VNone; row_with_age (VNum 7)])))
    (df_rows (data (fst (correlate_gender_age (finite_part sample_parse)
       (loaded [row_with_age (VStr "41"); row_with_age (VStr "unknown");
                row_with_age VNone; row_with_age (VNum 7)]))))).
Proof.
  assert (Hfin : finite_ages sample_parse
    (data (loaded [row_with_age (VStr "41"); row_with_age (VStr "unknown");
                   row_with_age VNone; row_with_age (VNum 7)]))).
  { intros r s b [<- | [<- | [<- | [<- | []]]]] E;
      try discriminate E; injection E as <-; vm_compute; discriminate. }
  split; [exact Hfin |].
  apply (age_coercion_is_stored sample_parse _ Hfin).
Defined.

(** The ages the calls store for these four rows. *)
Example age_coercion_example :
  map (fun r => (age r, age_group r))
      (df_rows (data (fst (correlate_gender_age (finite_part sample_parse)
         (loaded [row_with_age (VStr "41"); row_with_age (VStr "unknown");
                  row_with_age VNone; row_with_age (VNum 7)])))))
  = [(VNum 41, Some above_40); (VNaN, Some below_40);
     (VNaN, Some below_40); (VNum 7, Some below_40)] /\
  map age
      (df_rows (data (fst (show_age_distrib (finite_part sample_parse)
         (loaded [row_with_age (VStr "41"); row_with_age (VStr "unknown");
                  row_with_age VNone; row_with_age (VNum 7)])))))
  = [VNum 41; VNaN; VNaN; VNum 7].
Proof. split; reflexivity. Qed.

(** A stored age that is no number is NaN after either call. *)
Example age_unknown_becomes_missing :
  map age (df_rows (data (fst (show_age_distrib digits_to_float
     (loaded [row_with_age (VStr "unknown")])))))
  = [VNaN] /\
  map (fun r => (age r, age_group r))
      (df_rows (data (fst (correlate_gender_age digits_to_float
     (loaded [row_with_age (VStr "unknown")])))))
  = [(VNaN, Some below_40)].
Proof. split; reflexivity. Qed.

(** ** Scoring *)

Lemma mapM_ok {A B : Type} (f : A -> result B) (g : A -> B) (l : list A) :
  (forall a, In a l -> f a = Ok (g a)) -> mapM f l = Ok (map g l).
Proof.
  induction l as [| a l IH]; intros H; simpl.
  - reflexivity.
  - rewrite (H a (or_introl eq_refl)). simpl.
    rewrite IH by (intros b Hb; apply H; right; exact Hb). reflexivity.
Qed.

Lemma mapM_raise {A B : Type} (f : A -> result B) (l : list A) e :
  mapM f l = Raise e -> exists a, In a l /\ f a = Raise e.
Proof.
  induction l as [| a l IH]; simpl; intros H.
  - discriminate.
  - destruct (f a) as [b | e'] eqn:E; simpl in H.
    + destruct (mapM f l) as [bs | e''] eqn:E'; simpl in H; [discriminate |].
      injection H as H. subst e''.
      destruct (IH eq_refl) as (a' & Ha & Hf). exists a'. auto.
    + injection H as H. subst e'. exists a. auto.
Qed.

Lemma assign_score_rows df scores :
  length scores = length df ->
  df_rows (assign_score df scores)
  = map (fun rs => set_score (snd rs) (fst rs)) (combine (df_rows df) scores).
Proof.
  unfold df_rows, assign_score. revert scores.
  induction df as [| [i r] df IH]; intros [| s scores] H; simpl in *;
    try reflexivity; try discriminate.
  rewrite IH by lia. reflexivity.
Qed.

Lemma assign_score_index df scores :
  length scores = length df ->
  df_index (assign_score df scores) = df_index df.
Proof.
  unfold df_index, assign_score. revert scores.
  induction df as [| [i r] df IH]; intros [| s scores] H; simpl in *;
    try reflexivity; try discriminate.
  rewrite IH by lia. reflexivity.
Qed.

Lemma combine_map_map_set_score {A : Type} (f : A -> Row) (g : A -> option Z)
    (l : list A) :
  map (fun rs => set_score (snd rs) (fst rs)) (combine (map f l) (map g l))
  = map (fun a => set_score (g a) (f a)) l.
Proof.
  induction l as [| a l IH]; simpl; [| rewrite IH]; reflexivity.
Qed.

Section Scoring.

Variable to_float : string -> float.

Lemma coerce_questions_eq df :
  coerce_questions to_float df = map_rows (coerce_row to_float) df.
Proof.
  unfold coerce_questions, coerce_row. cbn [fold_left qcols].
  rewrite !map_rows_compose. reflexivity.
Qed.

Lemma questions_coerce_row r :
  questions (coerce_row to_float r)
  = map (to_numeric to_float) (questions r).
Proof. destruct r. reflexivity. Qed.

(** With the default threshold [calculate_score] never raises on a coerced
    row, and gives the claimed score. *)
Lemma calculate_score_default r :
  calculate_score 1 (map (to_numeric to_float) (questions r))
  = Ok (claimed_score (map (to_numeric to_float) (questions r))).
Proof.
  unfold questions, qcols, calculate_score, claimed_score. cbn [map get_q].
  destruct (to_numeric to_float (q1 r)) eqn:E1;
    try (pose proof (to_numeric_is_float to_float (q1 r)) as F;
         rewrite E1 in F; discriminate F);
  destruct (to_numeric to_float (q2 r)) eqn:E2;
    try (pose proof (to_numeric_is_float to_float (q2 r)) as F;
         rewrite E2 in F; discriminate F);
  destruct (to_numeric to_float (q3 r)) eqn:E3;
    try (pose proof (to_numeric_is_float to_float (q3 r)) as F;
         rewrite E3 in F; discriminate F);
  destruct (to_numeric to_float (q4 r)) eqn:E4;
    try (pose proof (to_numeric_is_float to_float (q4 r)) as F;
         rewrite E4 in F; discriminate F);
  destruct (to_numeric to_float (q5 r)) eqn:E5;
    try (pose proof (to_numeric_is_float to_float (q5 r)) as F;
         rewrite E5 in F; discriminate F);
  reflexivity.
Qed.

(** With the default threshold the scores are the claimed ones, and the
    call returns or raises as the cast to "UInt8" does. *)
Lemma score_subjects_default_run self :
  score_subjects to_float 1 self
  = match astype_UInt8
            (map (fun r => claimed_score
                             (map (to_numeric to_float) (questions r)))
                 (df_rows (data self)))
    with
    | Ok scores =>
        (with_data self
           (assign_score (map_rows (coerce_row to_float) (data self)) scores),
         Ok (assign_score (map_rows (coerce_row to_float) (data self))
                          scores))
    | Raise e =>
        (with_data self (map_rows (coerce_row to_float) (data self)), Raise e)
    end.
Proof.
  unfold score_subjects.
  rewrite coerce_questions_eq, map_rows_rows.
  rewrite (mapM_ok _ (fun r => claimed_score (questions r))).
  2:{ intros r Hr. apply in_map_iff in Hr. destruct Hr as (r0 & E & _).
      subst r. rewrite questions_coerce_row. apply calculate_score_default. }
  cbn [rbind]. rewrite map_map.
  rewrite (map_ext (fun r => claimed_score (questions (coerce_row to_float r)))
                   (fun r => claimed_score
                               (map (to_numeric to_float) (questions r))))
    by (intros r; rewrite questions_coerce_row; reflexivity).
  reflexivity.
Qed.

Lemma astype_UInt8_fits df :
  scores_fit_UInt8 to_float df ->
  astype_UInt8 (map (fun r => claimed_score
                                (map (to_numeric to_float) (questions r)))
                    (df_rows df))
  = Ok (map (fun r => claimed_score
                        (map (to_numeric to_float) (questions r)))
            (df_rows df)).
Proof.
  intros Hfit. unfold astype_UInt8.
  rewrite (proj2 (forallb_forall fits_UInt8 _)); [reflexivity |].
  intros s Hs. apply in_map_iff in Hs. destruct Hs as (r & E & Hr). subst s.
  destruct (claimed_score _) as [z |] eqn:Ez; [| reflexivity].
  destruct (Hfit r z Hr Ez) as [H0 H255].
  apply Z.leb_le in H0. apply Z.leb_le in H255.
  unfold fits_UInt8. rewrite H0, H255. reflexivity.
Qed.

(** The stored rows after a call that returned. *)
Lemma scored_rows df :
  df_rows (assign_score (map_rows (coerce_row to_float) df)
             (map (fun r => claimed_score
                              (map (to_numeric to_float) (questions r)))
                  (df_rows df)))
  = map (fun r => set_score
                    (claimed_score (map (to_numeric to_float) (questions r)))
                    (coerce_row to_float r))
        (df_rows df).
Proof.
  rewrite assign_score_rows
    by (rewrite length_map, map_rows_length; unfold df_rows;
        apply length_map).
  rewrite map_rows_rows. apply combine_map_map_set_score.
Qed.

End Scoring.

(** ** Scores of exact answers *)

Lemma Qfloor_div_int a n : 0 < n -> Qfloor (inject_Z a / inject_Z n) = a / n.
Proof.
  intros H. destruct n as [| p | p]; try lia.
  unfold Qdiv, Qinv, inject_Z, Qmult, Qfloor. simpl.
  rewrite Z.mul_1_r. reflexivity.
Qed.

Lemma small_integer_eq x :
  small_integer x = true -> (x == inject_Z (Qfloor x))%Q.
Proof.
  unfold small_integer. intros H. apply andb_true_iff in H as [H _].
  apply Qeq_bool_eq, H.
Qed.

Section ExactScoring.

Variable parse : string -> parsed.

Lemma exact_cell_coerced v :
  exact_cell parse v = true ->
  match cell_integer parse v with
  | Some z => exists x, to_numeric (finite_part parse) v = VNum x /\
                        (x == inject_Z z)%Q
  | None => to_numeric (finite_part parse) v = VNaN
  end.
Proof.
  destruct v as [| | x | s]; simpl; intros H; try reflexivity.
  - exists x. split; [reflexivity | apply small_integer_eq, H].
  - unfold finite_part. destruct (parse s) as [x | | b]; simpl.
    + exists x. split; [reflexivity | apply small_integer_eq, H].
    + reflexivity.
    + discriminate H.
Qed.

Lemma exact_cells_numbers qs :
  forallb (exact_cell parse) qs = true ->
  let zs := flat_map (fun v => match cell_integer parse v with
                               | Some z => [z]
                               | None => []
                               end) qs in
  let qs' := map (to_numeric (finite_part parse)) qs in
  length (numbers qs') = length zs /\
  (Qsum (numbers qs') == inject_Z (Zsum zs))%Q /\
  (length (filter isnull qs') + length zs = length qs)%nat.
Proof.
  induction qs as [| v qs IH]; intros H.
  - simpl. repeat split; reflexivity.
  - simpl in H. apply andb_true_iff in H as [Hv Hqs].
    destruct (IH Hqs) as (IH1 & IH2 & IH3). clear IH.
    pose proof (exact_cell_coerced v Hv) as Hc.
    cbn zeta. cbn [flat_map map].
    destruct (cell_integer parse v) as [z |].
    + destruct Hc as (x & -> & Hx).
      cbn [numbers flat_map filter isnull app length Qsum Zsum fold_right].
      fold (numbers (map (to_numeric (finite_part parse)) qs)).
      fold (Qsum (numbers (map (to_numeric (finite_part parse)) qs))).
      repeat split.
      * f_equal. exact IH1.
      * rewrite IH2, Hx, inject_Z_plus. reflexivity.
      * rewrite Nat.add_succ_r. f_equal. exact IH3.
    + rewrite Hc.
      cbn [numbers flat_map filter isnull app length].
      fold (numbers (map (to_numeric (finite_part parse)) qs)).
      repeat split.
      * exact IH1.
      * exact IH2.
      * cbn [Nat.add]. f_equal. exact IH3.
Qed.

Lemma questions_length (r : Row) : length (questions r) = 5%nat.
Proof. reflexivity. Qed.

(** On exact answers the floor of the mean is the integer quotient. *)
Lemma exact_row_score (r : Row) :
  forallb (exact_cell parse) (questions r) = true ->
  claimed_score (map (to_numeric (finite_part parse)) (questions r))
  = integer_score parse r.
Proof.
  intros H. destruct (exact_cells_numbers _ H) as (H1 & H2 & H3).
  cbn zeta in H1, H2, H3. rewrite questions_length in H3.
  unfold claimed_score, integer_score, integer_answers. cbn zeta.
  set (zs := flat_map _ (questions r)) in *.
  set (qs' := map _ (questions r)) in *.
  replace (Z.of_nat (length (filter isnull qs')))
    with (5 - Z.of_nat (length zs)) by lia.
  destruct (1 <? 5 - Z.of_nat (length zs)) eqn:E; [reflexivity |].
  apply Z.ltb_ge in E.
  unfold nanmean. destruct (numbers qs') as [| x xs] eqn:En.
  - simpl in H1. lia.
  - cbn [option_map]. f_equal. rewrite <- H1.
    rewrite <- Qfloor_div_int by (simpl length; lia).
    apply Qfloor_comp. rewrite H2. reflexivity.
Qed.

Lemma exact_scores_fit (df : DataFrame) :
  exact_answers parse df ->
  (scores_fit_UInt8 (finite_part parse) df <-> integer_scores_fit parse df).
Proof.
  intros Hex. unfold scores_fit_UInt8, integer_scores_fit.
  split; intros H r z Hr Hz; apply (H r z Hr).
  - rewrite (exact_row_score r (Hex r Hr)). exact Hz.
  - rewrite <- (exact_row_score r (Hex r Hr)). exact Hz.
Qed.

Lemma exact_scores_map (df : DataFrame) :
  exact_answers parse df ->
  map (fun r => Some (claimed_score
                        (map (to_numeric (finite_part parse)) (questions r))))
      (df_rows df)
  = map (fun r => Some (integer_score parse r)) (df_rows df).
Proof.
  intros Hex. apply map_ext_in. intros r Hr.
  rewrite (exact_row_score r (Hex r Hr)). reflexivity.
Qed.

(** C1, amended: take a table whose answers q1..q5 are whole numbers of
    absolute value at most 2^50, missing, or strings that pandas reads as
    such a number or as NaN, and in which the quotient of the sum of the
    answers of a row by their number is in 0..255, the range of the
    "UInt8" column, for every row that misses at most one answer.  Then
    [score_subjects()] with its default threshold 1 returns the stored
    table, in which every row is unscored ([pd.NA]) when more than one of
    its five answers is missing, and else has the floor of the mean of
    the answers given. *)
Theorem score_subjects_default (self : QuestionnaireAnalysis) :
  exact_answers parse (data self) ->
  integer_scores_fit parse (data self) ->
  scored_as_integers parse self.
Proof.
  intros Hex Hfit. unfold scored_as_integers.
  apply (exact_scores_fit _ Hex) in Hfit.
  rewrite score_subjects_default_run, (astype_UInt8_fits _ _ Hfit).
  eexists. split; [reflexivity |].
  rewrite scored_rows, map_map. apply (exact_scores_map _ Hex).
Qed.

End ExactScoring.

(** The three rows of the specification: [10,20,30,40,50] scores 30,
    [10,20,30,40,missing] scores 25, [10,missing,missing,40,50] is
    unscored. *)
Example score_subjects_examples :
  exists data2,
    snd (score_subjects digits_to_float 1
           (loaded
              [row_with_questions (VNum 10) (VNum 20) (VNum 30) (VNum 40)
                                  (VNum 50);
               row_with_questions (VNum 10) (VNum 20) (VNum 30) (VNum 40)
                                  (VStr "nan");
               row_with_questions (VNum 10) VNone VNaN (VStr "40")
                                  (VNum 50)])) = Ok data2 /\
    map score (df_rows data2) = [Some (Some 30); Some (Some 25); Some None].
Proof. eexists. split; reflexivity. Qed.

(** C1, as stated for every table, fails: when all five answers of a row
    are 300 the floor of their mean is 300, which no "UInt8" cell holds;
    the call raises and the row gets no score. *)
Lemma score_subjects_claim_counterexample :
  snd (score_subjects digits_to_float 1
         (loaded [row_with_questions (VNum 300) (VNum 300) (VNum 300)
                                     (VNum 300) (VNum 300)]))
  = Raise TypeError /\
  map score
      (df_rows (data (fst (score_subjects digits_to_float 1
         (loaded [row_with_questions (VNum 300) (VNum 300) (VNum 300)
                                     (VNum 300) (VNum 300)])))))
  = [None] /\
  ~ scored_as_claimed digits_to_float
      (loaded [row_with_questions (VNum 300) (VNum 300) (VNum 300)
                                  (VNum 300) (VNum 300)]).
Proof.
  split; [reflexivity |]. split; [reflexivity |].
  intros (data2 & H & _). discriminate H.
Qed.

Lemma score_subjects_default_witness :
  exact_answers sample_parse
    (data (loaded
       [row_with_questions (VNum 10) (VNum 20) (VNum 30) (VNum 40) (VNum 50);
        row_with_questions (VNum 10) (VNum 20) (VNum 30) (VNum 40)
                           (VStr "x");
        row_with_questions (VNum 10) VNone VNaN (VStr "40") (VNum 50)])) /\
  scored_as_integers sample_parse
    (loaded
       [row_with_questions (VNum 10) (VNum 20) (VNum 30) (VNum 40) (VNum 50);
        row_with_questions (VNum 10) (VNum 20) (VNum 30) (VNum 40)
                           (VStr "x");
        row_with_questions (VNum 10) VNone VNaN (VStr "40") (VNum 50)]).
Proof.
  assert (Hex : exact_answers sample_parse
    (data (loaded
       [row_with_questions (VNum 10) (VNum 20) (VNum 30) (VNum 40) (VNum 50);
        row_with_questions (VNum 10) (VNum 20) (VNum 30) (VNum 40)
                           (VStr "x");
        row_with_questions (VNum 10) VNone VNaN (VStr "40") (VNum 50)]))).
  { intros r [<- | [<- | [<- | []]]]; vm_compute; reflexivity. }
  split; [exact Hex |].
  apply (score_subjects_default sample_parse _ Hex).
  intros r z [<- | [<- | [<- | []]]] H; vm_compute in H;
    try discriminate H; injection H as <-; lia.
Defined.

(** The integer scores of the three rows of the specification. *)
Example integer_score_examples :
  map (integer_score sample_parse)
      [row_with_questions (VNum 10) (VNum 20) (VNum 30) (VNum 40) (VNum 50);
       row_with_questions (VNum 10) (VNum 20) (VNum 30) (VNum 40) (VStr "x");
       row_with_questions (VNum 10) VNone VNaN (VStr "40") (VNum 50)]
  = [Some 30; Some 25; None].
Proof. reflexivity. Qed.

(** ** Imputation *)

Lemma update_label_id idx df : update_label idx (fun r => r) df = df.
Proof.
  unfold update_label. induction df as [| [i r] df IH]; simpl.
  - reflexivity.
  - rewrite IH. destruct (Nat.eqb i idx); reflexivity.
Qed.

Lemma update_label_compose idx f g df :
  update_label idx f (update_label idx g df)
  = update_label idx (fun r => f (g r)) df.
Proof.
  unfold update_label. rewrite map_map. apply map_ext. intros [i r]. simpl.
  destruct (Nat.eqb i idx) eqn:E; simpl; rewrite E; reflexivity.
Qed.

Lemma null_question_in_row c row :
  isnull (get_q c row) = true -> existsb isnull (questions row) = true.
Proof.
  intros H. apply existsb_exists. exists (get_q c row). split; auto.
  unfold questions. apply (in_map (fun c0 => get_q c0 row) qcols c).
  destruct c; simpl; tauto.
Qed.

Lemma row_mean_fillable c row :
  fillable row = true -> isnull (get_q c row) = true ->
  row_mean row = Ok (mean_of_row row).
Proof.
  unfold fillable, row_mean. intros H Hc.
  rewrite (null_question_in_row c row Hc) in H. cbn [andb] in H.
  apply negb_true_iff in H. rewrite H. reflexivity.
Qed.

Lemma fill_step_ok idx row df c :
  fillable row = true ->
  fill_step idx row (Ok df) c
  = Ok (update_label idx
          (fun acc => if isnull (get_q c row)
                      then set_q c (mean_of_row row) acc else acc)
          df).
Proof.
  intros Hok. unfold fill_step. cbn [rbind].
  destruct (isnull (get_q c row)) eqn:Ec.
  - rewrite (row_mean_fillable c row Hok Ec). reflexivity.
  - rewrite update_label_id. reflexivity.
Qed.

(** The inner loop, over any list of columns. *)
Lemma fill_row_columns idx row cols :
  fillable row = true ->
  forall df,
    fold_left (fill_step idx row) cols (Ok df)
    = Ok (update_label idx
            (fun r' => fold_left
                         (fun acc col => if isnull (get_q col row)
                                         then set_q col (mean_of_row row) acc
                                         else acc)
                         cols r')
            df).
Proof.
  intros Hok. induction cols as [| c cols IH]; intros df.
  - simpl. rewrite update_label_id. reflexivity.
  - cbn [fold_left]. rewrite (fill_step_ok idx row df c Hok), IH.
    rewrite update_label_compose. reflexivity.
Qed.

Lemma fill_row_ok idx row df :
  fillable row = true ->
  fill_row idx row df = Ok (update_label idx (fill_from row) df).
Proof. intros H. apply fill_row_columns. exact H. Qed.

(** The outer loop, for any snapshot [rows] of [iterrows]. *)
Lemma fill_loop_ok rows :
  (forall ir, In ir rows -> fillable (snd ir) = true) ->
  forall df acc,
    fill_loop rows df acc
    = Ok (fold_left
            (fun d ir => if row_isnull_any (snd ir)
                         then update_label (fst ir) (fill_from (snd ir)) d
                         else d)
            rows df,
          acc ++ map fst (filter (fun ir => row_isnull_any (snd ir)) rows)).
Proof.
  induction rows as [| [idx row] rows IH]; intros Hok df acc.
  - simpl. rewrite app_nil_r. reflexivity.
  - cbn [fill_loop fold_left filter fst snd].
    assert (Hrest : forall ir, In ir rows -> fillable (snd ir) = true)
      by (intros ir Hir; apply Hok; right; exact Hir).
    destruct (row_isnull_any row) eqn:En.
    + rewrite fill_row_ok by (apply (Hok (idx, row)); left; reflexivity).
      cbn [rbind]. rewrite (IH Hrest). cbn [map fst].
      rewrite <- app_assoc. reflexivity.
    + rewrite (IH Hrest). reflexivity.
Qed.

Lemma fold_updates rows :
  forall d,
    fold_left
      (fun d ir => if row_isnull_any (snd ir)
                   then update_label (fst ir) (fill_from (snd ir)) d
                   else d)
      rows d
    = map (fun x => (fst x, apply_updates rows (fst x) (snd x))) d.
Proof.
  induction rows as [| [idx row] rows IH]; intros d.
  - simpl. rewrite <- (map_id d) at 1. apply map_ext. intros [i r].
    reflexivity.
  - cbn [fold_left fst snd]. rewrite IH.
    destruct (row_isnull_any row) eqn:En.
    + unfold update_label. rewrite map_map. apply map_ext. intros [i r].
      unfold apply_updates. cbn [fold_left fst snd]. rewrite En.
      destruct (Nat.eqb i idx) eqn:E; cbn [fst snd andb]; reflexivity.
    + apply map_ext. intros [i r]. unfold apply_updates.
      cbn [fold_left fst snd]. rewrite En, andb_false_r. reflexivity.
Qed.

Lemma apply_updates_other rows i r' :
  ~ In i (map fst rows) -> apply_updates rows i r' = r'.
Proof.
  unfold apply_updates. revert r'.
  induction rows as [| [idx row] rows IH]; intros r' H.
  - reflexivity.
  - cbn [fold_left fst snd]. simpl in H.
    destruct (Nat.eqb_spec i idx) as [E | E].
    + exfalso. apply H. left. symmetry. exact E.
    + cbn [andb]. apply IH. intros Hin. apply H. right. exact Hin.
Qed.

Lemma apply_updates_unique rows x r' :
  NoDup (map fst rows) -> In x rows ->
  apply_updates rows (fst x) r'
  = if row_isnull_any (snd x) then fill_from (snd x) r' else r'.
Proof.
  revert r'. induction rows as [| [idx row] rows IH]; intros r' Hnd Hin.
  - destruct Hin.
  - simpl in Hnd. inversion Hnd as [| a l Hnotin Hnd' E]. subst.
    destruct Hin as [E | Hin].
    + subst x. unfold apply_updates. cbn [fold_left fst snd].
      rewrite Nat.eqb_refl. cbn [andb].
      fold (apply_updates rows idx
              (if row_isnull_any row then fill_from row r' else r')).
      apply apply_updates_other. exact Hnotin.
    + unfold apply_updates. cbn [fold_left fst snd].
      destruct (Nat.eqb_spec (fst x) idx) as [E | E].
      * exfalso. apply Hnotin. rewrite <- E. apply in_map. exact Hin.
      * cbn [andb]. apply IH; assumption.
Qed.

Lemma fill_from_nothing_missing row r' :
  existsb isnull (questions row) = false -> fill_from row r' = r'.
Proof.
  unfold questions, fill_from, qcols. cbn [map existsb fold_left].
  intros H. repeat (apply orb_false_iff in H; destruct H as [?E H]).
  rewrite E, E0, E1, E2, E3. reflexivity.
Qed.

Lemma not_null_any_no_missing r :
  row_isnull_any r = false -> existsb isnull (questions r) = false.
Proof.
  unfold row_isnull_any. intros H.
  destruct (existsb isnull (questions r)); [| reflexivity].
  rewrite !orb_true_r in H. simpl in H. discriminate H.
Qed.

Lemma fill_loop_indices rows :
  forall df acc d' l',
    fill_loop rows df acc = Ok (d', l') ->
    l' = acc ++ map fst (filter (fun ir => row_isnull_any (snd ir)) rows).
Proof.
  induction rows as [| [idx row] rows IH]; intros df acc d' l' H.
  - simpl in H. injection H as _ H. subst. rewrite app_nil_r. reflexivity.
  - cbn [fill_loop] in H. cbn [filter snd].
    destruct (row_isnull_any row).
    + destruct (fill_row idx row df) as [df' | e]; cbn [rbind] in H;
        [| discriminate].
      rewrite (IH _ _ _ _ H). cbn [map fst]. rewrite <- app_assoc.
      reflexivity.
    + apply (IH _ _ _ _ H).
Qed.

(** The indices [fill_na_with_mean] returns: the labels of the rows in
    which any column at all is null. *)
Lemma fill_na_with_mean_indices self data_filled row_indices :
  snd (fill_na_with_mean self) = Ok (data_filled, row_indices) ->
  row_indices
  = map fst (filter (fun ir => row_isnull_any (snd ir)) (data self)).
Proof.
  unfold fill_na_with_mean. cbn [snd]. intros H.
  apply fill_loop_indices in H. exact H.
Qed.

Lemma get_q_filled_row r c :
  get_q c (filled_row r)
  = if isnull (get_q c r) then mean_of_row r else get_q c r.
Proof.
  unfold filled_row, fill_from, qcols. cbn [fold_left].
  destruct c; cbn [get_q];
    destruct (isnull (q1 r)), (isnull (q2 r)), (isnull (q3 r)),
             (isnull (q4 r)), (isnull (q5 r)); reflexivity.
Qed.

Lemma filled_row_other_columns r :
  age (filled_row r) = age r /\ gender (filled_row r) = gender r /\
  email (filled_row r) = email r /\ score (filled_row r) = score r /\
  age_group (filled_row r) = age_group r.
Proof.
  unfold filled_row, fill_from, qcols. cbn [fold_left get_q].
  destruct (isnull (q1 r)), (isnull (q2 r)), (isnull (q3 r)),
           (isnull (q4 r)), (isnull (q5 r)); repeat split.
Qed.

(** C7, amended: for every stored table with distinct index labels (a
    loaded table has the labels 0, 1, ..) in which no row holds both a
    missing question and a string among q1..q5, [fill_na_with_mean] leaves
    the object as it was and returns a copy, with the same index, in which
    each missing question of a row is replaced by the mean of that row's
    own present questions and every other cell is as before.  A row with
    one question missing gets the sum of the other four divided by 4; a
    row with all five missing gets NaN, and no exception is raised. *)
Theorem fill_na_with_mean_fills (self : QuestionnaireAnalysis) :
  NoDup (df_index (data self)) ->
  (forall r, In r (df_rows (data self)) -> fillable r = true) ->
  filled_as_claimed self /\
  (forall r c,
      get_q c (filled_row r)
      = if isnull (get_q c r) then mean_of_row r else get_q c r) /\
  (forall r,
      age (filled_row r) = age r /\ gender (filled_row r) = gender r /\
      email (filled_row r) = email r /\ score (filled_row r) = score r /\
      age_group (filled_row r) = age_group r) /\
  (forall r xs,
      numbers (questions r) = xs -> length xs = 4%nat ->
      mean_of_row r = VNum (Qsum xs / 4)) /\
  (forall r, numbers (questions r) = [] -> mean_of_row r = VNaN).
Proof.
  intros Hnd Hok. split; [| split; [| split; [| split]]].
  - unfold filled_as_claimed, fill_na_with_mean. cbn [fst snd].
    split; [reflexivity |].
    rewrite fill_loop_ok.
    2:{ intros [i r] Hir. apply Hok. unfold df_rows.
        apply (in_map snd) in Hir. exact Hir. }
    eexists. eexists. split; [reflexivity |].
    rewrite fold_updates. split.
    + unfold df_index. rewrite map_map. reflexivity.
    + unfold df_rows. rewrite !map_map. apply map_ext_in. intros x Hx.
      cbn [snd]. rewrite (apply_updates_unique _ x _ Hnd Hx).
      destruct (row_isnull_any (snd x)) eqn:En; [reflexivity |].
      unfold filled_row. symmetry. apply fill_from_nothing_missing.
      apply not_null_any_no_missing. exact En.
  - apply get_q_filled_row.
  - apply filled_row_other_columns.
  - intros r xs E L. unfold mean_of_row. rewrite E.
    destruct xs as [| x1 [| x2 [| x3 [| x4 [| x5 xs]]]]]; try discriminate.
    reflexivity.
  - intros r E. unfold mean_of_row. rewrite E. reflexivity.
Qed.

(** A row [10, missing, 30, 40, 50] is filled with (10+30+40+50)/4, a row
    with nothing but missing answers with NaN. *)
Example fill_na_with_mean_examples :
  exists data_filled,
    snd (fill_na_with_mean
           (loaded [row_with_questions (VNum 10) VNaN (VNum 30) (VNum 40)
                                       (VNum 50);
                    row_with_questions VNaN VNaN VNaN VNaN VNaN;
                    row_with_questions (VNum 1) (VNum 2) (VNum 3) (VNum 4)
                                       (VNum 5)]))
    = Ok (data_filled, [0%nat; 1%nat]) /\
    map questions (df_rows data_filled)
    = [[VNum 10; VNum (130 # 4); VNum 30; VNum 40; VNum 50];
       [VNaN; VNaN; VNaN; VNaN; VNaN];
       [VNum 1; VNum 2; VNum 3; VNum 4; VNum 5]].
Proof. eexists. split; reflexivity. Qed.

Lemma fill_na_with_mean_fills_witness :
  filled_as_claimed
    (loaded [row_with_questions (VNum 10) VNaN (VNum 30) (VNum 40) (VNum 50);
             row_with_questions (VNum 1) (VNum 2) (VNum 3) (VNum 4)
                                (VNum 5)]).
Proof.
  apply (fill_na_with_mean_fills
           (loaded [row_with_questions (VNum 10) VNaN (VNum 30) (VNum 40)
                                       (VNum 50);
                    row_with_questions (VNum 1) (VNum 2) (VNum 3) (VNum 4)
                                       (VNum 5)])).
  - simpl. repeat constructor; simpl; intuition discriminate.
  - simpl. intros r [<- | [<- | []]]; reflexivity.
Defined.

(** C7, as stated for every table, fails: in a row whose q1 is missing and
    whose q2 is a string, the mean of the row raises; nothing is
    returned. *)
Lemma fill_na_with_mean_claim_counterexample :
  snd (fill_na_with_mean
         (loaded [row_with_questions VNone (VStr "abc") (VNum 30) (VNum 40)
                                     (VNum 50)]))
  = Raise TypeError /\
  ~ filled_as_claimed
      (loaded [row_with_questions VNone (VStr "abc") (VNum 30) (VNum 40)
                                  (VNum 50)]).
Proof.
  split; [reflexivity |].
  intros (_ & d & l & H & _). discriminate H.
Qed.

(** C3 does not hold of the code: a row that answered all five questions
    but has no age is listed among the returned indices, because the loop
    tests the whole row for nulls and not only q1..q5. *)
Lemma fill_na_with_mean_lists_complete_row :
  existsb isnull (questions (row_with_age VNone)) = false /\
  exists data_filled,
    snd (fill_na_with_mean (loaded [row_with_age VNone]))
    = Ok (data_filled, [0%nat]).
Proof. split; [reflexivity |]. eexists. reflexivity. Qed.

(** ** Grouping *)

Lemma AgeGroup_eqb_eq a b : AgeGroup_eqb a b = true <-> a = b.
Proof. destruct a, b; simpl; split; intros H; congruence. Qed.

Lemma key_compare_eq k1 k2 : key_compare k1 k2 = Eq -> k1 = k2.
Proof.
  destruct k1 as [g1 a1], k2 as [g2 a2]. unfold key_compare. simpl.
  destruct (String.compare g1 g2) eqn:E; try discriminate.
  apply String.compare_eq_iff in E. subst.
  destruct a1, a2; simpl; intros H; congruence.
Qed.


Lemma string_compare_trans s1 s2 s3 :
  String.compare s1 s2 = Lt -> String.compare s2 s3 = Lt ->
  String.compare s1 s3 = Lt.
Proof.
  intros H1 H2.
  apply OrderedTypeEx.String_as_OT.cmp_lt in H1.
  apply OrderedTypeEx.String_as_OT.cmp_lt in H2.
  apply OrderedTypeEx.String_as_OT.cmp_lt.
  eapply OrderedTypeEx.String_as_OT.lt_trans; eassumption.
Qed.

Lemma key_lt_trans k1 k2 k3 : key_lt k1 k2 -> key_lt k2 k3 -> key_lt k1 k3.
Proof.
  destruct k1 as [g1 a1], k2 as [g2 a2], k3 as [g3 a3].
  unfold key_lt, key_compare. simpl.
  destruct (String.compare g1 g2) eqn:E12; try discriminate;
    destruct (String.compare g2 g3) eqn:E23; try discriminate; intros H1 H2.
  - apply String.compare_eq_iff in E12. apply String.compare_eq_iff in E23.
    subst. assert (E : String.compare g3 g3 = Eq)
      by (apply OrderedTypeEx.String_as_OT.cmp_eq; reflexivity).
    rewrite E. destruct a1, a2, a3; simpl in *; congruence.
  - apply String.compare_eq_iff in E12. subst. rewrite E23. reflexivity.
  - apply String.compare_eq_iff in E23. subst. rewrite E12. reflexivity.
  - rewrite (string_compare_trans _ _ _ E12 E23). reflexivity.
Qed.


Lemma key_compare_gt k1 k2 : key_compare k1 k2 = Gt -> key_lt k2 k1.
Proof.
  destruct k1 as [g1 a1], k2 as [g2 a2]. unfold key_lt, key_compare. simpl.
  rewrite (String.compare_antisym g2 g1).
  destruct (String.compare g1 g2) eqn:E; simpl; try discriminate.
  - destruct a1, a2; simpl; congruence.
  - reflexivity.
Qed.

Lemma insert_key_In k k' ks :
  In k (insert_key k' ks) <-> k = k' \/ In k ks.
Proof.
  induction ks as [| h ks IH]; simpl.
  - intuition.
  - destruct (key_compare k' h) eqn:E; simpl.
    + apply key_compare_eq in E. subst h. intuition.
    + intuition.
    + rewrite IH. intuition.
Qed.

Lemma insert_key_sorted k ks :
  StronglySorted key_lt ks -> StronglySorted key_lt (insert_key k ks).
Proof.
  induction 1 as [| h ks Hs IH Hh]; simpl.
  - constructor; constructor.
  - destruct (key_compare k h) eqn:E.
    + constructor; assumption.
    + constructor; [constructor; assumption |].
      constructor; [exact E |].
      rewrite Forall_forall in *. intros x Hx.
      apply (key_lt_trans k h x); [exact E | apply Hh; exact Hx].
    + constructor; [exact IH |].
      rewrite Forall_forall in *. intros x Hx.
      apply insert_key_In in Hx. destruct Hx as [-> | Hx].
      * apply key_compare_gt. exact E.
      * apply Hh. exact Hx.
Qed.


Lemma group_keys_sorted df : StronglySorted key_lt (group_keys df).
Proof.
  unfold group_keys. induction (df_rows df) as [| r rows IH]; simpl.
  - constructor.
  - destruct (row_key r); [apply insert_key_sorted |]; exact IH.
Qed.


Lemma select_all_columns df :
  (forall c, numeric_column c df = true) ->
  select_columns qcols (groupby_mean df)
  = Ok (map (fun k => (k, map (group_mean df k) qcols)) (group_keys df)).
Proof.
  intros H. unfold groupby_mean, qcols. cbn [filter].
  rewrite (H Q1), (H Q2), (H Q3), (H Q4), (H Q5).
  unfold select_columns. cbn [g_columns g_rows forallb existsb QCol_eqb orb
                                        andb].
  rewrite map_map. reflexivity.
Qed.

Lemma select_missing_column df c :
  numeric_column c df = false ->
  select_columns qcols (groupby_mean df) = Raise KeyError.
Proof.
  intros H. unfold groupby_mean, select_columns, qcols.
  cbn [filter g_columns].
  destruct c; rewrite H;
    destruct (numeric_column Q1 df), (numeric_column Q2 df),
             (numeric_column Q3 df), (numeric_column Q4 df),
             (numeric_column Q5 df); try discriminate H; reflexivity.
Qed.

Section Correlation.

Variable to_float : string -> float.

Lemma get_q_labelled c r : get_q c (labelled to_float r) = get_q c r.
Proof. destruct c; reflexivity. Qed.


Lemma correlate_gender_age_result self :
  snd (correlate_gender_age to_float self)
  = select_columns qcols
      (groupby_mean (map_rows (labelled to_float) (data self))).
Proof.
  unfold correlate_gender_age, coerce_age. cbn [snd].
  rewrite map_rows_compose. reflexivity.
Qed.

Lemma numeric_after_labelling df c :
  questions_numeric df ->
  numeric_column c (map_rows (labelled to_float) df) = true.
Proof.
  intros H. unfold numeric_column. rewrite map_rows_rows.
  apply forallb_forall. intros r Hr.
  apply in_map_iff in Hr. destruct Hr as (r0 & <- & Hr0).
  rewrite get_q_labelled. apply H. exact Hr0.
Qed.




End Correlation.

(** The two rows of the specification: gender F, age 45, every answer 10,
    and gender F, age 30, every answer 20. *)
Example correlate_gender_age_example :
  snd (correlate_gender_age digits_to_float
         (loaded [row_of "F" (VNum 45) (VNum 10);
                  row_of "F" (VNum 30) (VNum 20)]))
  = Ok [(("F"%string, above_40),
         [Some 10%Q; Some 10%Q; Some 10%Q; Some 10%Q; Some 10%Q]);
        (("F"%string, below_40),
         [Some 20%Q; Some 20%Q; Some 20%Q; Some 20%Q; Some 20%Q])].
Proof. reflexivity. Qed.



(** ** Which calls raise *)

Lemma astype_UInt8_same scores scores' :
  astype_UInt8 scores = Ok scores' -> scores' = scores.
Proof.
  unfold astype_UInt8. destruct (forallb fits_UInt8 scores).
  - intros H. injection H as <-. reflexivity.
  - destruct (existsb is_NA scores); discriminate.
Qed.

Lemma astype_UInt8_inv scores scores' :
  astype_UInt8 scores = Ok scores' ->
  forall z, In (Some z) scores -> 0 <= z <= 255.
Proof.
  unfold astype_UInt8. destruct (forallb fits_UInt8 scores) eqn:E.
  - intros _ z Hz. rewrite forallb_forall in E. specialize (E _ Hz).
    unfold fits_UInt8 in E. apply andb_true_iff in E. destruct E as [E1 E2].
    apply Z.leb_le in E1. apply Z.leb_le in E2. lia.
  - destruct (existsb is_NA scores); discriminate.
Qed.

Lemma astype_UInt8_all_NA scores :
  (forall s, In s scores -> s = None) -> astype_UInt8 scores = Ok scores.
Proof.
  intros H. unfold astype_UInt8.
  rewrite (proj2 (forallb_forall fits_UInt8 scores)); [reflexivity |].
  intros s Hs. rewrite (H s Hs). reflexivity.
Qed.

(** The cast raises an OverflowError when some score is [pd.NA], a
    TypeError when none is. *)
Lemma astype_UInt8_raises scores e :
  astype_UInt8 scores = Raise e ->
  (e = OverflowError /\ existsb is_NA scores = true) \/
  (e = TypeError /\ existsb is_NA scores = false).
Proof.
  unfold astype_UInt8. destruct (forallb fits_UInt8 scores); [discriminate |].
  destruct (existsb is_NA scores); intros H; injection H as <-; auto.
Qed.

Lemma astype_UInt8_not_value_error scores e :
  astype_UInt8 scores = Raise e -> e <> ValueError /\ e <> KeyError.
Proof.
  intros H. apply astype_UInt8_raises in H.
  destruct H as [[-> _] | [-> _]]; split; discriminate.
Qed.

Lemma mapM_length {A B : Type} (f : A -> result B) (l : list A) l' :
  mapM f l = Ok l' -> length l' = length l.
Proof.
  revert l'. induction l as [| a l IH]; intros l' H; simpl in H.
  - injection H as <-. reflexivity.
  - destruct (f a) as [b |]; cbn [rbind] in H; [| discriminate].
    destruct (mapM f l) as [bs |]; cbn [rbind] in H; [| discriminate].
    injection H as <-. simpl. rewrite (IH bs eq_refl). reflexivity.
Qed.

Lemma assign_score_rows_in df scores r :
  In r (df_rows (assign_score df scores)) ->
  exists r1 s, In r1 (df_rows df) /\ r = set_score s r1.
Proof.
  unfold df_rows, assign_score. revert scores.
  induction df as [| [i r0] df IH]; intros [| s scores] H; simpl in H;
    try contradiction.
  destruct H as [H | H].
  - exists r0, s. split; [left; reflexivity | symmetry; exact H].
  - destruct (IH scores H) as (r1 & s1 & H1 & E).
    exists r1, s1. split; [right; exact H1 | exact E].
Qed.

Lemma questions_numeric_assign_score df scores :
  questions_numeric df -> questions_numeric (assign_score df scores).
Proof.
  intros H r c Hr. apply assign_score_rows_in in Hr.
  destruct Hr as (r1 & s & Hr1 & ->).
  rewrite <- (H r1 c Hr1). destruct c; reflexivity.
Qed.

Lemma numeric_rows_fillable df :
  questions_numeric df ->
  forall r, In r (df_rows df) -> fillable r = true.
Proof.
  intros H r Hr. unfold fillable.
  assert (E : existsb is_str (questions r) = false).
  { destruct (existsb is_str (questions r)) eqn:E; [| reflexivity].
    apply existsb_exists in E. destruct E as (v & Hv & Hs).
    unfold questions in Hv. apply in_map_iff in Hv.
    destruct Hv as (c & <- & _). specialize (H r c Hr).
    destruct (get_q c r); discriminate. }
  rewrite E, andb_false_r. reflexivity.
Qed.

Lemma fill_na_with_mean_returns self :
  (forall r, In r (df_rows (data self)) -> fillable r = true) ->
  exists res, fill_na_with_mean self = (self, Ok res).
Proof.
  intros Hok. unfold fill_na_with_mean.
  rewrite fill_loop_ok.
  - eexists. reflexivity.
  - intros [i r] Hir. apply Hok. unfold df_rows.
    apply (in_map snd) in Hir. exact Hir.
Qed.

Section Raising.

Variable to_float : string -> float.

Lemma get_q_coerce_row c r :
  get_q c (coerce_row to_float r) = to_numeric to_float (get_q c r).
Proof. destruct c, r; reflexivity. Qed.

Lemma questions_numeric_coerced df :
  questions_numeric (map_rows (coerce_row to_float) df).
Proof.
  intros r c Hr. rewrite map_rows_rows in Hr. apply in_map_iff in Hr.
  destruct Hr as (r0 & <- & _). rewrite get_q_coerce_row.
  apply to_numeric_is_float.
Qed.

(** Whatever [score_subjects()] did, the question columns are numeric
    afterwards. *)
Lemma questions_numeric_after_scoring self :
  questions_numeric (data (fst (score_subjects to_float 1 self))).
Proof.
  rewrite score_subjects_default_run.
  destruct (astype_UInt8 _) as [scores | e]; cbn [fst data with_data].
  - apply questions_numeric_assign_score, questions_numeric_coerced.
  - apply questions_numeric_coerced.
Qed.

Lemma correlate_gender_age_returns self :
  questions_numeric (data self) ->
  returns (snd (correlate_gender_age to_float self)).
Proof.
  intros H. rewrite correlate_gender_age_result.
  rewrite select_all_columns
    by (intros c; apply numeric_after_labelling; exact H).
  eexists. reflexivity.
Qed.

Lemma score_subjects_returns_iff self :
  returns (snd (score_subjects to_float 1 self)) <->
  scores_fit_UInt8 to_float (data self).
Proof.
  rewrite score_subjects_default_run. split.
  - intros (d & H) r z Hr Ez.
    destruct (astype_UInt8 _) as [scores | e] eqn:E; [| discriminate H].
    apply (astype_UInt8_inv _ _ E z). rewrite <- Ez.
    apply (in_map (fun r => claimed_score
                              (map (to_numeric to_float) (questions r)))).
    exact Hr.
  - intros Hfit. rewrite (astype_UInt8_fits _ _ Hfit). eexists. reflexivity.
Qed.

End Raising.

Section RaisingExact.

Variable parse : string -> parsed.

(** On exact answers, how the default call of [score_subjects] ends is
    read off the integer scores. *)
Lemma score_subjects_exact_cases self :
  exact_answers parse (data self) ->
  (returns (snd (score_subjects (finite_part parse) 1 self)) <->
   integer_scores_fit parse (data self)) /\
  (returns (snd (score_subjects (finite_part parse) 1 self)) \/
   (snd (score_subjects (finite_part parse) 1 self) = Raise OverflowError /\
    exists r, In r (df_rows (data self)) /\ integer_score parse r = None) \/
   (snd (score_subjects (finite_part parse) 1 self) = Raise TypeError /\
    forall r, In r (df_rows (data self)) -> integer_score parse r <> None)).
Proof.
  intros Hex. split.
  { rewrite score_subjects_returns_iff. apply exact_scores_fit, Hex. }
  rewrite score_subjects_default_run.
  destruct (astype_UInt8 _) as [scores | e] eqn:E; cbn [snd].
  { left. eexists. reflexivity. }
  right. apply astype_UInt8_raises in E.
  destruct E as [[-> Hna] | [-> Hna]]; [left | right];
    (split; [reflexivity |]).
  - apply existsb_exists in Hna. destruct Hna as (s & Hs & Hn).
    apply in_map_iff in Hs. destruct Hs as (r & <- & Hr).
    exists r. split; [exact Hr |].
    rewrite <- (exact_row_score parse r (Hex r Hr)).
    destruct (claimed_score _); [discriminate Hn | reflexivity].
  - intros r Hr Hn.
    rewrite <- (exact_row_score parse r (Hex r Hr)) in Hn.
    assert (Ht : existsb is_NA
                   (map (fun r => claimed_score
                                    (map (to_numeric (finite_part parse))
                                         (questions r)))
                        (df_rows (data self))) = true).
    { apply existsb_exists. exists None. split; [| reflexivity].
      rewrite <- Hn.
      apply (in_map (fun r => claimed_score
                                (map (to_numeric (finite_part parse))
                                     (questions r)))).
      exact Hr. }
    congruence.
Qed.

(** C8, amended: [show_age_distrib] and [remove_rows_without_mail] never
    raise, whatever the rows hold: an age that is no number becomes
    missing, an email that is no string is merely invalid.
    [score_subjects()] turns non-numeric answers into missing ones; on a
    table whose answers are whole numbers of absolute value at most 2^50,
    missing, or strings read as such a number or as NaN, it returns
    exactly when the score of every scored row is in 0..255, and
    otherwise raises an OverflowError when some row is unscored and a
    TypeError when every row is scored.  [fill_na_with_mean] and
    [correlate_gender_age] do not convert q1..q5 themselves: they return
    on every table whose question columns are numeric, which is the case
    once [score_subjects] has been called, whether it returned or
    raised. *)
Theorem row_content_and_exceptions (self : QuestionnaireAnalysis) :
  returns (snd (show_age_distrib (finite_part parse) self)) /\
  returns (snd (remove_rows_without_mail self)) /\
  (exact_answers parse (data self) ->
   (returns (snd (score_subjects (finite_part parse) 1 self)) <->
    integer_scores_fit parse (data self)) /\
   (returns (snd (score_subjects (finite_part parse) 1 self)) \/
    (snd (score_subjects (finite_part parse) 1 self) = Raise OverflowError /\
     exists r, In r (df_rows (data self)) /\ integer_score parse r = None) \/
    (snd (score_subjects (finite_part parse) 1 self) = Raise TypeError /\
     forall r, In r (df_rows (data self)) ->
               integer_score parse r <> None))) /\
  questions_numeric
    (data (fst (score_subjects (finite_part parse) 1 self))) /\
  returns (snd (fill_na_with_mean
                  (fst (score_subjects (finite_part parse) 1 self)))) /\
  returns (snd (correlate_gender_age (finite_part parse)
                  (fst (score_subjects (finite_part parse) 1 self)))) /\
  (forall other,
      questions_numeric (data other) ->
      returns (snd (fill_na_with_mean other)) /\
      returns (snd (correlate_gender_age (finite_part parse) other))).
Proof.
  assert (Hgen : forall other,
             questions_numeric (data other) ->
             returns (snd (fill_na_with_mean other)) /\
             returns (snd (correlate_gender_age (finite_part parse) other))).
  { intros other H. split.
    - destruct (fill_na_with_mean_returns other
                  (numeric_rows_fillable _ H)) as (res & E).
      rewrite E. exists res. reflexivity.
    - apply correlate_gender_age_returns. exact H. }
  pose proof (questions_numeric_after_scoring (finite_part parse) self)
    as Hnum.
  split; [eexists; reflexivity |].
  split; [rewrite remove_rows_without_mail_eq; eexists; reflexivity |].
  split; [apply score_subjects_exact_cases |].
  split; [exact Hnum |].
  split; [apply (Hgen _ Hnum) |].
  split; [apply (Hgen _ Hnum) | exact Hgen].
Qed.

End RaisingExact.

(** A score that does not fit: with every row scored the cast raises a
    TypeError, beside an unscored row an OverflowError. *)
Example score_subjects_raises_examples :
  snd (score_subjects (finite_part sample_parse) 1
         (loaded [row_with_questions (VNum 300) (VNum 300) (VNum 300)
                                     (VNum 300) (VNum 300)]))
  = Raise TypeError /\
  snd (score_subjects (finite_part sample_parse) 1
         (loaded [row_with_questions (VNum 300) (VNum 300) (VNum 300)
                                     (VNum 300) (VNum 300);
                  row_with_questions VNone VNone (VNum 1) (VNum 2)
                                     (VNum 3)]))
  = Raise OverflowError.
Proof. split; reflexivity. Qed.

Lemma row_content_and_exceptions_witness :
  exact_answers sample_parse
    (data (loaded [row_with_questions (VNum 10) (VStr "20") (VNum 30)
                                      (VStr "abc") (VNum 50)])) /\
  returns (snd (score_subjects (finite_part sample_parse) 1
     (loaded [row_with_questions (VNum 10) (VStr "20") (VNum 30)
                                 (VStr "abc") (VNum 50)]))).
Proof.
  assert (Hex : exact_answers sample_parse
    (data (loaded [row_with_questions (VNum 10) (VStr "20") (VNum 30)
                                      (VStr "abc") (VNum 50)]))).
  { intros r [<- | []]. vm_compute. reflexivity. }
  split; [exact Hex |].
  apply (proj1 (proj1 (proj2 (proj2
           (row_content_and_exceptions sample_parse _))) Hex)).
  intros r z [<- | []] H. vm_compute in H. injection H as <-. lia.
Defined.

(** C8, as stated, fails: on a loaded table with a row whose q1 is missing
    and whose q2 is the string "abc", [fill_na_with_mean] raises a
    TypeError and [correlate_gender_age] a KeyError. *)
Lemma never_raises_counterexample :
  snd (fill_na_with_mean
         (loaded [row_with_questions VNone (VStr "abc") (VNum 30) (VNum 40)
                                     (VNum 50)]))
  = Raise TypeError /\
  snd (correlate_gender_age digits_to_float
         (loaded [row_with_questions VNone (VStr "abc") (VNum 30) (VNum 40)
                                     (VNum 50)]))
  = Raise KeyError /\
  ~ never_raises digits_to_float
      (loaded [row_with_questions VNone (VStr "abc") (VNum 30) (VNum 40)
                                  (VNum 50)]).
Proof.
  split; [reflexivity |]. split; [reflexivity |].
  intros (_ & _ & (res & H) & _). discriminate H.
Qed.

(** ** The stored table keeps its rows *)


Lemma keeps_table_trans d1 d2 d3 :
  keeps_table d1 d2 -> keeps_table d2 d3 -> keeps_table d1 d3.
Proof.
  intros [I12 F12] [I23 F23]. split; [congruence |].
  revert F23. generalize (df_rows d3). clear I12 I23.
  induction F12 as [| r1 r2 l1 l2 H12 F12 IH]; intros l3 F23.
  - inversion F23. constructor.
  - inversion F23 as [| r2' r3 l2' l3' H23 F23' E1 E2]. subst.
    constructor; [| apply IH; exact F23'].
    destruct H12 as (G1 & E1 & S1 & A1). destruct H23 as (G2 & E2 & S2 & A2).
    repeat split; try congruence; auto.
Qed.

Lemma keeps_table_length d1 d2 : keeps_table d1 d2 -> length d2 = length d1.
Proof.
  intros [_ F]. apply Forall2_length in F. unfold df_rows in F.
  rewrite !length_map in F. symmetry. exact F.
Qed.

Lemma keeps_table_map_rows f df :
  (forall r, gender (f r) = gender r /\ email (f r) = email r /\
             (score r <> None -> score (f r) <> None) /\
             (age_group r <> None -> age_group (f r) <> None)) ->
  keeps_table df (map_rows f df).
Proof.
  intros H. split; [apply map_rows_index |].
  rewrite map_rows_rows.
  induction (df_rows df) as [| r rows IH]; simpl; constructor; auto.
Qed.

Lemma keeps_table_assign_score df scores :
  length scores = length df -> keeps_table df (assign_score df scores).
Proof.
  intros L. split; [apply assign_score_index; exact L |].
  rewrite assign_score_rows by exact L. unfold df_rows.
  revert scores L. induction df as [| [i r] df IH]; intros [| s scores] L;
    simpl in *; try discriminate; constructor.
  - repeat split; simpl; auto. discriminate.
  - apply IH. lia.
Qed.

Lemma and_then_returns {A B : Type} (m : method A) (k : method B) self :
  returns (snd (m self)) -> and_then m k self = k (fst (m self)).
Proof.
  unfold and_then. destruct (m self) as [self' [a | e]]; simpl.
  - reflexivity.
  - intros (a & H). discriminate H.
Qed.


Section RowCount.

Variable to_float : string -> float.




Lemma coerce_questions_keeps df :
  keeps_table df (coerce_questions to_float df).
Proof.
  rewrite coerce_questions_eq. apply keeps_table_map_rows.
  intros r. destruct r. repeat split; auto.
Qed.

Lemma score_subjects_keeps thr s :
  keeps_table (data s) (data (fst (score_subjects to_float thr s))).
Proof.
  unfold score_subjects.
  destruct (mapM _ (df_rows (coerce_questions to_float (data s))))
    as [scores |] eqn:E1; cbn [rbind].
  - destruct (astype_UInt8 scores) as [scores' |] eqn:E2;
      cbn [fst data with_data].
    + eapply keeps_table_trans; [apply coerce_questions_keeps |].
      apply keeps_table_assign_score.
      rewrite (astype_UInt8_same _ _ E2), (mapM_length _ _ _ E1).
      unfold df_rows. apply length_map.
    + apply coerce_questions_keeps.
  - cbn [fst data with_data]. apply coerce_questions_keeps.
Qed.



Lemma well_formed_after_show df :
  well_formed to_float df -> well_formed to_float (coerce_age to_float df).
Proof.
  unfold well_formed, scores_fit_UInt8, coerce_age.
  rewrite map_rows_rows. intros [Hf Hs]. split.
  - intros r Hr. apply in_map_iff in Hr. destruct Hr as (r0 & <- & Hr0).
    rewrite <- (Hf r0 Hr0). reflexivity.
  - intros r z Hr. apply in_map_iff in Hr. destruct Hr as (r0 & <- & Hr0).
    apply (Hs r0 z Hr0).
Qed.

Lemma main_returns self :
  well_formed to_float (data self) -> returns (snd (main to_float self)).
Proof.
  intros Hwf. apply well_formed_after_show in Hwf. destruct Hwf as [Hf Hs].
  unfold main.
  rewrite and_then_returns by (eexists; reflexivity).
  set (s1 := fst (show_age_distrib to_float self)).
  assert (D1 : data s1 = coerce_age to_float (data self)) by reflexivity.
  rewrite and_then_returns
    by (rewrite remove_rows_without_mail_eq; eexists; reflexivity).
  rewrite remove_rows_without_mail_eq. cbn [fst].
  destruct (fill_na_with_mean_returns s1) as (res & E).
  { rewrite D1. exact Hf. }
  rewrite and_then_returns by (rewrite E; eexists; reflexivity).
  rewrite E. cbn [fst].
  rewrite and_then_returns
    by (apply score_subjects_returns_iff; rewrite D1; exact Hs).
  apply correlate_gender_age_returns, questions_numeric_after_scoring.
Qed.


End RowCount.


(** ** Rows of the data model are well-formed *)

Lemma Qsum_bounds xs :
  Forall (fun x => (0 <= x)%Q /\ (x <= 100)%Q) xs ->
  (0 <= Qsum xs)%Q /\
  (Qsum xs <= 100 * inject_Z (Z.of_nat (length xs)))%Q.
Proof.
  induction 1 as [| x xs [Hx0 Hx1] Hxs [IH0 IH1]].
  - unfold Qsum. cbn [fold_right length Z.of_nat].
    change (inject_Z 0) with 0%Q. split; lra.
  - unfold Qsum. cbn [fold_right length]. fold (Qsum xs).
    rewrite Nat2Z.inj_succ, <- Z.add_1_r, inject_Z_plus.
    change (inject_Z 1) with 1%Q. split; lra.
Qed.

Lemma nanmean_bounds xs m :
  Forall (fun x => (0 <= x)%Q /\ (x <= 100)%Q) xs ->
  nanmean xs = Some m -> (0 <= m)%Q /\ (m <= 100)%Q.
Proof.
  intros H E. destruct xs as [| x xs]; [discriminate E |].
  assert (Em : m = (Qsum (x :: xs)
                    / inject_Z (Z.of_nat (length (x :: xs))))%Q)
    by (unfold nanmean in E; congruence).
  subst m. destruct (Qsum_bounds _ H) as [H0 H1].
  assert (P : (0 < inject_Z (Z.of_nat (length (x :: xs))))%Q).
  { change 0%Q with (inject_Z 0). rewrite <- Zlt_Qlt. simpl. lia. }
  split.
  - apply Qle_shift_div_l; [exact P | rewrite Qmult_0_l; exact H0].
  - apply Qle_shift_div_r; [exact P | exact H1].
Qed.

Section PlainRows.

Variable to_float : string -> float.

Lemma plain_numbers qs :
  forallb plain_cell qs = true ->
  numbers (map (to_numeric to_float) qs) = numbers qs /\
  Forall (fun x => (0 <= x)%Q /\ (x <= 100)%Q) (numbers qs) /\
  existsb is_str qs = false.
Proof.
  induction qs as [| v qs IH]; intros H.
  - repeat split. constructor.
  - cbn [forallb] in H. apply andb_true_iff in H. destruct H as [Hv Hqs].
    destruct (IH Hqs) as (E & F & S).
    destruct v as [| | x | s]; simpl in *; try discriminate Hv;
      try (repeat split; assumption).
    apply andb_true_iff in Hv. destruct Hv as [H0 H1].
    apply Qle_bool_iff in H0. apply Qle_bool_iff in H1.
    rewrite E. repeat split; [constructor; [split |] |]; assumption.
Qed.

(** Tables whose answers are numbers between 0 and 100 or missing are
    well-formed. *)
Lemma plain_rows_well_formed df :
  plain_rows df -> well_formed to_float df.
Proof.
  intros Hp. split.
  - intros r Hr. destruct (plain_numbers _ (Hp r Hr)) as (_ & _ & S).
    unfold fillable. rewrite S, andb_false_r. reflexivity.
  - intros r z Hr Hz. destruct (plain_numbers _ (Hp r Hr)) as (E & F & _).
    unfold claimed_score in Hz. rewrite E in Hz.
    destruct (1 <? _); [discriminate Hz |].
    destruct (nanmean (numbers (questions r))) as [m |] eqn:Em;
      [| discriminate Hz].
    injection Hz as <-. destruct (nanmean_bounds _ _ F Em) as [H0 H1].
    apply Qfloor_resp_le in H0. apply Qfloor_resp_le in H1.
    change (Qfloor 0) with 0 in H0. change (Qfloor 100) with 100 in H1.
    lia.
Qed.

End PlainRows.

(** * Further properties of the methods *)

(** ** [is_valid_email] *)

Lemma list_ascii_of_string_app s t :
  list_ascii_of_string (s ++ t)
  = (list_ascii_of_string s ++ list_ascii_of_string t)%list.
Proof.
  induction s as [| c s IH]; simpl; [| rewrite IH]; reflexivity.
Qed.

Lemma list_ascii_length s : length (list_ascii_of_string s) = String.length s.
Proof.
  induction s as [| c s IH]; simpl; [| rewrite IH]; reflexivity.
Qed.

(** X1: the pattern is matched with [re.match], at the start of the string
    only: whatever is appended to a valid email, the result is valid. *)
Theorem valid_email_extends (s t : string) :
  is_valid_email (VStr s) = true ->
  is_valid_email (VStr (s ++ t)) = true.
Proof.
  intros H. apply is_valid_email_spec in H.
  destruct H as (s' & l & d & u & rest & E & Es & H).
  injection E as <-.
  apply is_valid_email_spec.
  exists (s ++ t)%string, l, d, u, (rest ++ list_ascii_of_string t)%list.
  split; [reflexivity |]. split; [| exact H].
  rewrite list_ascii_of_string_app, Es.
  repeat (rewrite <- app_assoc; simpl). reflexivity.
Qed.

Lemma valid_email_extends_witness :
  is_valid_email (VStr ("a@b.c" ++ "@@ not an address")) = true.
Proof. apply (valid_email_extends "a@b.c"). reflexivity. Defined.

(** X2: what every valid email has: it is a string of at least five
    characters that does not start with '@' and holds both an '@' and a
    '.'; so an email that is no string, is shorter, or lacks one of the
    two characters is dropped by the filter. *)
Theorem valid_email_necessary (v : value) :
  is_valid_email v = true ->
  exists s,
    v = VStr s /\
    (5 <= String.length s)%nat /\
    In at_sign (list_ascii_of_string s) /\
    In dot (list_ascii_of_string s) /\
    (forall t, s <> String at_sign t).
Proof.
  intros H. apply is_valid_email_spec in H.
  destruct H as (s & l & d & t & rest & E & Es & Hl & Hla & Hd & Hda & Ht & _).
  exists s. split; [exact E |].
  split; [| split; [| split]].
  - rewrite <- list_ascii_length, Es.
    destruct l; [contradiction |]. destruct d; [contradiction |].
    destruct t; [contradiction |].
    rewrite length_app. simpl. rewrite length_app. simpl. lia.
  - rewrite Es. apply in_or_app. right. left. reflexivity.
  - rewrite Es. apply in_or_app. right. right.
    apply in_or_app. right. left. reflexivity.
  - intros t0 E0. subst s. simpl in Es.
    destruct l as [| c l]; [contradiction |].
    simpl in Es. injection Es as Ec _. subst c.
    inversion Hla as [| ? ? Hc _]. apply Hc. reflexivity.
Qed.

Lemma valid_email_necessary_witness :
  exists s,
    VStr "ab@cd.ef" = VStr s /\
    (5 <= String.length s)%nat /\
    In at_sign (list_ascii_of_string s) /\
    In dot (list_ascii_of_string s) /\
    (forall t, s <> String at_sign t).
Proof. apply (valid_email_necessary (VStr "ab@cd.ef")). reflexivity. Defined.

(** ** The email filter and the histogram, called again *)

Lemma filter_idempotent {A : Type} (f : A -> bool) (l : list A) :
  filter f (filter f l) = filter f l.
Proof.
  induction l as [| a l IH]; simpl; [reflexivity |].
  destruct (f a) eqn:E; simpl; [rewrite E, IH |]; auto.
Qed.

(** X3: the email filter is idempotent: an object that holds the returned
    table is left as it is by the filter, which returns that very table
    again, index included. *)
Theorem email_filter_idempotent (self : QuestionnaireAnalysis) :
  exists cleaned,
    snd (remove_rows_without_mail self) = Ok cleaned /\
    remove_rows_without_mail (with_data self cleaned)
    = (with_data self cleaned, Ok cleaned).
Proof.
  rewrite remove_rows_without_mail_eq. cbn [snd].
  eexists. split; [reflexivity |].
  rewrite remove_rows_without_mail_eq. cbn [data with_data].
  rewrite range_frame_rows, filter_idempotent. reflexivity.
Qed.

Lemma np_histogram_nonneg xs edges :
  Forall (fun c => 0 <= c) (np_histogram xs edges).
Proof.
  induction edges as [| lo edges IH]; [constructor |].
  destruct edges as [| hi rest]; [constructor |].
  change (np_histogram xs (lo :: hi :: rest))
    with (count_in_bin lo hi (match rest with [] => true | _ => false end) xs
          :: np_histogram xs (hi :: rest)).
  constructor; [unfold count_in_bin; lia | exact IH].
Qed.

Lemma filter_length_all {A : Type} (f : A -> bool) (l : list A) :
  length (filter f l) = length l <-> forallb f l = true.
Proof.
  induction l as [| a l IH]; simpl; [tauto |].
  pose proof (filter_length_le f l) as Hle.
  destruct (f a); simpl.
  - rewrite <- IH. lia.
  - split; [lia | discriminate].
Qed.

Section AgeDistributionAgain.

Variable to_float : string -> float.

Lemma coerce_age_idempotent df :
  coerce_age to_float (coerce_age to_float df) = coerce_age to_float df.
Proof.
  unfold coerce_age. rewrite map_rows_compose. unfold map_rows.
  apply map_ext. intros [i r]. cbn [fst snd]. f_equal.
  unfold set_age. cbn [age gender email q1 q2 q3 q4 q5 score age_group].
  rewrite to_numeric_idempotent. reflexivity.
Qed.

(** X4: [show_age_distrib] called a second time changes nothing more and
    returns the same counts and edges: the coercion it stores is
    idempotent. *)
Theorem show_age_distrib_again (self : QuestionnaireAnalysis) :
  show_age_distrib to_float (fst (show_age_distrib to_float self))
  = show_age_distrib to_float self.
Proof.
  unfold show_age_distrib. cbn [fst data with_data].
  rewrite coerce_age_idempotent. reflexivity.
Qed.

(** X5: no count of the histogram is negative, the counts add up to at
    most the number of rows, and to exactly that number if and only if
    the age of every row is a number from 0 to 100. *)
Theorem age_histogram_bounds (self : QuestionnaireAnalysis) :
  exists hist bins,
    snd (show_age_distrib to_float self) = Ok (hist, bins) /\
    Forall (fun c => 0 <= c) hist /\
    Zsum hist <= Z.of_nat (length (data self)) /\
    (Zsum hist = Z.of_nat (length (data self)) <->
     forallb (age_within_bins to_float) (df_rows (data self)) = true).
Proof.
  rewrite show_age_distrib_eq. cbn [snd].
  eexists. eexists. split; [reflexivity |].
  split; [apply np_histogram_nonneg |].
  rewrite np_histogram_sum by reflexivity.
  unfold count_in_bin. rewrite count_ages.
  change (last [10; 20; 30; 40; 50; 60; 70; 80; 90; 100] 10) with 100.
  assert (E : filter (fun r => match to_numeric to_float (age r) with
                               | VNum x => in_bin 0 100 true x
                               | _ => false
                               end) (df_rows (data self))
              = filter (age_within_bins to_float) (df_rows (data self)))
    by (apply filter_ext; intros r; reflexivity).
  rewrite E.
  assert (L : length (df_rows (data self)) = length (data self))
    by (unfold df_rows; apply length_map).
  pose proof (filter_length_le (age_within_bins to_float)
                               (df_rows (data self))) as Hle.
  split; [lia |].
  rewrite <- filter_length_all. lia.
Qed.

End AgeDistributionAgain.

(** ** Imputation: when it raises, what it returns *)

(** The call, when no row stands in its way. *)
Lemma fill_na_with_mean_eq self :
  NoDup (df_index (data self)) ->
  (forall r, In r (df_rows (data self)) -> fillable r = true) ->
  fill_na_with_mean self
  = (self,
     Ok (map_rows filled_row (data self),
         map fst (filter (fun ir => row_isnull_any (snd ir)) (data self)))).
Proof.
  intros Hnd Hok. unfold fill_na_with_mean.
  rewrite fill_loop_ok.
  2:{ intros [i r] Hir. apply Hok. unfold df_rows.
      apply (in_map snd) in Hir. exact Hir. }
  rewrite fold_updates. do 3 f_equal.
  unfold map_rows. apply map_ext_in. intros x Hx. f_equal.
  rewrite (apply_updates_unique _ x _ Hnd Hx).
  destruct (row_isnull_any (snd x)) eqn:En; [reflexivity |].
  unfold filled_row. symmetry. apply fill_from_nothing_missing.
  apply not_null_any_no_missing. exact En.
Qed.

Lemma missing_question_null_any r :
  existsb isnull (questions r) = true -> row_isnull_any r = true.
Proof.
  unfold row_isnull_any. intros H. rewrite H.
  rewrite !orb_true_r. reflexivity.
Qed.

Lemma not_fillable r :
  fillable r = false ->
  existsb isnull (questions r) = true /\ existsb is_str (questions r) = true.
Proof.
  unfold fillable. intros H. apply negb_false_iff in H.
  apply andb_true_iff in H. exact H.
Qed.

(** The inner loop raises on a row with a missing answer and a string. *)
Lemma fill_row_raises idx row df :
  fillable row = false -> fill_row idx row df = Raise TypeError.
Proof.
  intros H. destruct (not_fillable _ H) as [Hn Hs].
  assert (Hm : row_mean row = Raise TypeError)
    by (unfold row_mean; rewrite Hs; reflexivity).
  unfold fill_row, qcols, fill_step. cbn [fold_left rbind].
  unfold questions, qcols in Hn. cbn [map existsb] in Hn.
  rewrite Hm.
  destruct (isnull (get_q Q1 row)), (isnull (get_q Q2 row)),
           (isnull (get_q Q3 row)), (isnull (get_q Q4 row)),
           (isnull (get_q Q5 row)); try discriminate Hn; reflexivity.
Qed.

Lemma fill_loop_raises rows :
  (exists ir, In ir rows /\ fillable (snd ir) = false) ->
  forall df acc, fill_loop rows df acc = Raise TypeError.
Proof.
  induction rows as [| [idx row] rows IH]; intros (ir & Hin & Hbad) df acc.
  - destruct Hin.
  - cbn [fill_loop].
    destruct (fillable row) eqn:Ef.
    + assert (Hrest : exists ir, In ir rows /\ fillable (snd ir) = false).
      { destruct Hin as [E | Hin]; [| exists ir; auto].
        subst ir. cbn [snd] in Hbad. congruence. }
      destruct (row_isnull_any row).
      * rewrite fill_row_ok by exact Ef. cbn [rbind]. apply IH. exact Hrest.
      * apply IH. exact Hrest.
    + destruct (not_fillable _ Ef) as [Hn _].
      rewrite (missing_question_null_any _ Hn).
      rewrite fill_row_raises by exact Ef. reflexivity.
Qed.

Lemma all_or_some_not_fillable (rows : list Row) :
  (forall r, In r rows -> fillable r = true) \/
  (exists r, In r rows /\ fillable r = false).
Proof.
  induction rows as [| r rows [IH | (r0 & Hr0 & Hb)]].
  - left. intros r [].
  - destruct (fillable r) eqn:E.
    + left. intros r0 [<- | H]; auto.
    + right. exists r. split; [left; reflexivity | exact E].
  - right. exists r0. split; [right; exact Hr0 | exact Hb].
Qed.

(** X6: [fill_na_with_mean] returns exactly when no row holds both a
    missing answer and a string among q1..q5; when some row does, it
    raises a TypeError.  It raises nothing else, and the object is never
    changed. *)
Theorem fill_na_with_mean_raises_exactly (self : QuestionnaireAnalysis) :
  fst (fill_na_with_mean self) = self /\
  (returns (snd (fill_na_with_mean self)) <->
   forall r, In r (df_rows (data self)) -> fillable r = true) /\
  ((exists r, In r (df_rows (data self)) /\ fillable r = false) ->
   snd (fill_na_with_mean self) = Raise TypeError).
Proof.
  assert (Hbad : (exists r, In r (df_rows (data self)) /\ fillable r = false)
                 -> snd (fill_na_with_mean self) = Raise TypeError).
  { intros (r & Hr & Hb). unfold fill_na_with_mean. cbn [snd].
    apply fill_loop_raises. unfold df_rows in Hr.
    apply in_map_iff in Hr. destruct Hr as (ir & <- & Hir).
    exists ir. auto. }
  split; [reflexivity |]. split; [| exact Hbad].
  split.
  - intros (res & H).
    destruct (all_or_some_not_fillable (df_rows (data self))) as [Ha | Hs];
      [exact Ha |].
    rewrite (Hbad Hs) in H. discriminate H.
  - intros Hok. destruct (fill_na_with_mean_returns self Hok) as (res & E).
    rewrite E. exists res. reflexivity.
Qed.

Lemma seq_filter_sorted {A : Type} (p : nat * A -> bool) (l : list A) :
  forall a,
    StronglySorted lt (map fst (filter p (combine (seq a (length l)) l))) /\
    Forall (fun i => (a <= i < a + length l)%nat)
           (map fst (filter p (combine (seq a (length l)) l))).
Proof.
  induction l as [| x l IH]; intros a; simpl.
  - split; constructor.
  - destruct (IH (S a)) as [Hs Hf].
    assert (Hf' : Forall (fun i => (a <= i < a + S (length l))%nat)
                    (map fst (filter p (combine (seq (S a) (length l)) l)))).
    { eapply Forall_impl; [| exact Hf]. simpl. intros i Hi. lia. }
    destruct (p (a, x)); simpl.
    + split.
      * constructor; [exact Hs |].
        eapply Forall_impl; [| exact Hf]. simpl. intros i Hi. lia.
      * constructor; [simpl; lia | exact Hf'].
    + split; [exact Hs | exact Hf'].
Qed.

Lemma combine_seq_In {A : Type} (l : list A) i (x : A) :
  forall a,
    In (i, x) (combine (seq a (length l)) l) <->
    (a <= i)%nat /\ nth_error l (i - a) = Some x.
Proof.
  induction l as [| y l IH]; intros a; simpl.
  - split; [intros [] | intros [_ H]].
    destruct (i - a)%nat; discriminate H.
  - rewrite IH. split.
    + intros [E | [Hle Hn]].
      * injection E as -> ->. rewrite Nat.sub_diag. split; [lia | reflexivity].
      * split; [lia |].
        replace (i - a)%nat with (S (i - S a)) by lia. exact Hn.
    + intros [Hle Hn]. destruct (Nat.eq_dec a i) as [-> | Hne].
      * rewrite Nat.sub_diag in Hn. injection Hn as ->. left. reflexivity.
      * right. split; [lia |].
        replace (i - a)%nat with (S (i - S a)) in Hn by lia. exact Hn.
Qed.

Lemma range_frame_In rows i r :
  In (i, r) (range_frame rows) <-> nth_error rows i = Some r.
Proof.
  unfold range_frame. rewrite combine_seq_In, Nat.sub_0_r.
  split; [intros [_ H]; exact H | intros H; split; [lia | exact H]].
Qed.

(** X7: on a loaded table, the index list [fill_na_with_mean] returns
    holds the positions of the rows in which some column (of all the
    columns, not of q1..q5 only) is null, each once, in strictly
    increasing order and below the number of rows. *)
Theorem fill_na_with_mean_index_list (rows : list Row) data_filled
    row_indices :
  snd (fill_na_with_mean (loaded rows)) = Ok (data_filled, row_indices) ->
  row_indices
  = map fst (filter (fun ir => row_isnull_any (snd ir)) (range_frame rows)) /\
  StronglySorted lt row_indices /\
  Forall (fun i => (i < length rows)%nat) row_indices /\
  (forall i, In i row_indices <->
             exists r, nth_error rows i = Some r /\ row_isnull_any r = true).
Proof.
  unfold fill_na_with_mean, loaded. cbn [snd data]. intros H.
  apply fill_loop_indices in H. cbn [app] in H. subst row_indices.
  destruct (seq_filter_sorted (fun ir => row_isnull_any (snd ir)) rows 0)
    as [Hs Hf].
  split; [reflexivity |]. split; [exact Hs |]. split.
  - eapply Forall_impl; [| exact Hf]. simpl. intros i Hi. lia.
  - intros i. rewrite in_map_iff. split.
    + intros ([j r] & E & Hin). cbn [fst] in E. subst j.
      apply filter_In in Hin. destruct Hin as [Hin Hn]. cbn [snd] in Hn.
      exists r. split; [apply range_frame_In; exact Hin | exact Hn].
    + intros (r & Hr & Hn). exists (i, r). split; [reflexivity |].
      apply filter_In. split; [apply range_frame_In; exact Hr | exact Hn].
Qed.

Lemma fill_na_with_mean_index_list_witness :
  StronglySorted lt [0%nat; 2%nat].
Proof.
  apply (fill_na_with_mean_index_list
           [row_with_age VNone;
            row_with_age (VNum 20);
            row_with_questions VNaN (VNum 2) (VNum 3) (VNum 4) (VNum 5)]
           (map_rows filled_row
              (range_frame
                 [row_with_age VNone;
                  row_with_age (VNum 20);
                  row_with_questions VNaN (VNum 2) (VNum 3) (VNum 4)
                                     (VNum 5)]))
           [0%nat; 2%nat]).
  reflexivity.
Defined.

Lemma row_ext (r r' : Row) :
  age r = age r' -> gender r = gender r' -> email r = email r' ->
  (forall c, get_q c r = get_q c r') ->
  score r = score r' -> age_group r = age_group r' -> r = r'.
Proof.
  destruct r, r'. cbn [age gender email score age_group].
  intros -> -> -> Hq -> ->.
  pose proof (Hq Q1) as E1. pose proof (Hq Q2) as E2.
  pose proof (Hq Q3) as E3. pose proof (Hq Q4) as E4.
  pose proof (Hq Q5) as E5. cbn [get_q q1 q2 q3 q4 q5] in *.
  subst. reflexivity.
Qed.

Lemma in_questions v r : In v (questions r) <-> exists c, get_q c r = v.
Proof.
  unfold questions. rewrite in_map_iff. split.
  - intros (c & E & _). exists c. exact E.
  - intros (c & E). exists c. split; [exact E |].
    destruct c; simpl; tauto.
Qed.

Lemma numbers_In x vs : In x (numbers vs) <-> In (VNum x) vs.
Proof.
  unfold numbers. rewrite in_flat_map. split.
  - intros (v & Hv & Hx). destruct v as [| | y | t]; simpl in Hx;
      try contradiction.
    destruct Hx as [<- | []]. exact Hv.
  - intros H. exists (VNum x). split; [exact H | left; reflexivity].
Qed.

Lemma numbers_nil vs : numbers vs = [] <-> forall x, ~ In (VNum x) vs.
Proof.
  split.
  - intros E x H. apply numbers_In in H. rewrite E in H. destruct H.
  - intros H. destruct (numbers vs) as [| x xs] eqn:E; [reflexivity |].
    exfalso. apply (H x). apply numbers_In. rewrite E. left. reflexivity.
Qed.

Lemma mean_of_row_null r :
  isnull (mean_of_row r) = true ->
  numbers (questions r) = [] /\ mean_of_row r = VNaN.
Proof.
  unfold mean_of_row.
  destruct (numbers (questions r)) as [| x xs]; simpl.
  - auto.
  - discriminate.
Qed.

(** A cell that is still null after the imputation was null before, in a
    row without any number. *)
Lemma filled_row_null c r :
  isnull (get_q c (filled_row r)) = true ->
  isnull (get_q c r) = true /\ numbers (questions r) = [] /\
  get_q c (filled_row r) = VNaN.
Proof.
  rewrite get_q_filled_row. destruct (isnull (get_q c r)) eqn:E.
  - intros H. apply mean_of_row_null in H. tauto.
  - intros H. congruence.
Qed.

Lemma filled_row_no_numbers r :
  numbers (questions r) = [] -> numbers (questions (filled_row r)) = [].
Proof.
  intros E. apply numbers_nil. intros x H.
  apply in_questions in H. destruct H as (c & H).
  rewrite get_q_filled_row in H.
  destruct (isnull (get_q c r)).
  - unfold mean_of_row in H. rewrite E in H. discriminate H.
  - rewrite numbers_nil in E. apply (E x). apply in_questions.
    exists c. exact H.
Qed.

Lemma filled_row_idempotent r : filled_row (filled_row r) = filled_row r.
Proof.
  destruct (filled_row_other_columns (filled_row r)) as (A & G & M & S & L).
  apply row_ext; try assumption.
  intros c. rewrite (get_q_filled_row (filled_row r)).
  destruct (isnull (get_q c (filled_row r))) eqn:E; [| reflexivity].
  apply filled_row_null in E. destruct E as (_ & En & Ec).
  rewrite Ec. unfold mean_of_row.
  rewrite (filled_row_no_numbers _ En). reflexivity.
Qed.

Lemma filled_row_fillable r : fillable r = true -> fillable (filled_row r) = true.
Proof.
  intros H. destruct (fillable (filled_row r)) eqn:E; [reflexivity |].
  destruct (not_fillable _ E) as [Hn Hs].
  apply existsb_exists in Hn. destruct Hn as (v & Hv & Hnull).
  apply in_questions in Hv. destruct Hv as (c & <-).
  apply filled_row_null in Hnull. destruct Hnull as (Hc & _ & _).
  apply existsb_exists in Hs. destruct Hs as (w & Hw & Hstr).
  apply in_questions in Hw. destruct Hw as (c' & <-).
  rewrite get_q_filled_row in Hstr.
  assert (Hs' : is_str (get_q c' r) = true).
  { destruct (isnull (get_q c' r)); [| exact Hstr].
    unfold mean_of_row in Hstr.
    destruct (nanmean (numbers (questions r))); discriminate Hstr. }
  unfold fillable in H.
  rewrite (null_question_in_row c r Hc) in H.
  assert (Hq : existsb is_str (questions r) = true).
  { apply existsb_exists. exists (get_q c' r). split; [| exact Hs'].
    apply in_questions. exists c'. reflexivity. }
  rewrite Hq in H. discriminate H.
Qed.

(** X8: in the table [fill_na_with_mean] returns, a row has a missing
    answer only if all its five answers are missing: wherever a row has
    one number among q1..q5, no missing answer is left. *)
Theorem fill_na_with_mean_leaves_no_gap (self : QuestionnaireAnalysis) :
  NoDup (df_index (data self)) ->
  (forall r, In r (df_rows (data self)) -> fillable r = true) ->
  exists data_filled row_indices,
    snd (fill_na_with_mean self) = Ok (data_filled, row_indices) /\
    length data_filled = length (data self) /\
    forall r, In r (df_rows data_filled) ->
              existsb isnull (questions r) = true ->
              forallb isnull (questions r) = true.
Proof.
  intros Hnd Hok. rewrite (fill_na_with_mean_eq self Hnd Hok). cbn [snd].
  eexists. eexists. split; [reflexivity |].
  split; [apply map_rows_length |].
  intros r' Hr' Hnull. rewrite map_rows_rows in Hr'.
  apply in_map_iff in Hr'. destruct Hr' as (r & <- & Hr).
  apply existsb_exists in Hnull. destruct Hnull as (v & Hv & Hn).
  apply in_questions in Hv. destruct Hv as (c & <-).
  apply filled_row_null in Hn. destruct Hn as (_ & En & Ecv).
  apply forallb_forall. intros w Hw.
  apply in_questions in Hw. destruct Hw as (c' & <-).
  destruct (get_q c' (filled_row r)) as [| | x | s] eqn:E;
    try reflexivity; exfalso.
  - pose proof (filled_row_no_numbers _ En) as En'.
    rewrite numbers_nil in En'. apply (En' x). apply in_questions.
    exists c'. exact E.
  - pose proof (filled_row_fillable r (Hok r Hr)) as Hf.
    unfold fillable in Hf.
    assert (H1 : existsb isnull (questions (filled_row r)) = true).
    { apply existsb_exists. exists (get_q c (filled_row r)).
      split; [apply in_questions; exists c; reflexivity |].
      rewrite Ecv. reflexivity. }
    assert (H2 : existsb is_str (questions (filled_row r)) = true).
    { apply existsb_exists. exists (VStr s).
      split; [apply in_questions; exists c'; exact E | reflexivity]. }
    rewrite H1, H2 in Hf. discriminate Hf.
Qed.

Lemma fill_na_with_mean_leaves_no_gap_witness :
  exists data_filled row_indices,
    snd (fill_na_with_mean
           (loaded [row_with_questions (VNum 10) VNaN (VNum 30) VNone
                                       (VNum 50);
                    row_with_questions VNaN VNaN VNaN VNaN VNaN]))
    = Ok (data_filled, row_indices) /\
    length data_filled = 2%nat /\
    forall r, In r (df_rows data_filled) ->
              existsb isnull (questions r) = true ->
              forallb isnull (questions r) = true.
Proof.
  apply (fill_na_with_mean_leaves_no_gap
           (loaded [row_with_questions (VNum 10) VNaN (VNum 30) VNone
                                       (VNum 50);
                    row_with_questions VNaN VNaN VNaN VNaN VNaN])).
  - simpl. repeat constructor; simpl; intuition discriminate.
  - simpl. intros r [<- | [<- | []]]; reflexivity.
Defined.

(** X9: imputing an imputed table changes nothing: [fill_na_with_mean] on
    an object that holds the table it returned returns that table
    again. *)
Theorem fill_na_with_mean_idempotent (self : QuestionnaireAnalysis) :
  NoDup (df_index (data self)) ->
  (forall r, In r (df_rows (data self)) -> fillable r = true) ->
  exists data_filled row_indices again_indices,
    snd (fill_na_with_mean self) = Ok (data_filled, row_indices) /\
    snd (fill_na_with_mean (with_data self data_filled))
    = Ok (data_filled, again_indices).
Proof.
  intros Hnd Hok. rewrite (fill_na_with_mean_eq self Hnd Hok). cbn [snd].
  eexists. eexists. eexists. split; [reflexivity |].
  rewrite fill_na_with_mean_eq.
  - cbn [snd data with_data]. rewrite map_rows_compose.
    unfold map_rows at 1.
    rewrite (map_ext (fun ir => (fst ir, filled_row (filled_row (snd ir))))
                     (fun ir => (fst ir, filled_row (snd ir))))
      by (intros ir; rewrite filled_row_idempotent; reflexivity).
    reflexivity.
  - cbn [data with_data]. rewrite map_rows_index. exact Hnd.
  - cbn [data with_data]. intros r Hr. rewrite map_rows_rows in Hr.
    apply in_map_iff in Hr. destruct Hr as (r0 & <- & Hr0).
    apply filled_row_fillable. apply Hok. exact Hr0.
Qed.

Lemma fill_na_with_mean_idempotent_witness :
  exists data_filled row_indices again_indices,
    snd (fill_na_with_mean
           (loaded [row_with_questions (VNum 10) VNaN (VNum 30) VNone
                                       (VNum 50);
                    row_with_age VNone]))
    = Ok (data_filled, row_indices) /\
    snd (fill_na_with_mean
           (with_data
              (loaded [row_with_questions (VNum 10) VNaN (VNum 30) VNone
                                          (VNum 50);
                       row_with_age VNone])
              data_filled))
    = Ok (data_filled, again_indices).
Proof.
  apply (fill_na_with_mean_idempotent
           (loaded [row_with_questions (VNum 10) VNaN (VNum 30) VNone
                                       (VNum 50);
                    row_with_age VNone])).
  - simpl. repeat constructor; simpl; intuition discriminate.
  - simpl. intros r [<- | [<- | []]]; reflexivity.
Defined.

(** ** Scoring: thresholds, exceptions, repetition *)

Lemma assign_score_rows_scores df scores r :
  In r (df_rows (assign_score df scores)) ->
  exists r1 s, In r1 (df_rows df) /\ In s scores /\ r = set_score s r1.
Proof.
  unfold df_rows, assign_score. revert scores.
  induction df as [| [i r0] df IH]; intros [| s scores] H; simpl in H;
    try contradiction.
  destruct H as [H | H].
  - exists r0, s. split; [left; reflexivity |].
    split; [left; reflexivity | symmetry; exact H].
  - destruct (IH scores H) as (r1 & s1 & H1 & H2 & E).
    exists r1, s1. split; [right; exact H1 |].
    split; [right; exact H2 | exact E].
Qed.

Lemma assign_score_map (f : Row -> Row) (g : Row -> option Z) df :
  assign_score (map_rows f df) (map g (df_rows df))
  = map_rows (fun r => set_score (g r) (f r)) df.
Proof.
  unfold assign_score, map_rows, df_rows.
  induction df as [| [i r] df IH]; simpl; [| rewrite IH]; reflexivity.
Qed.

Lemma mapM_raise_all {A B : Type} (f : A -> result B) (l : list A) e :
  (forall a e', In a l -> f a = Raise e' -> e' = e) ->
  (exists a, In a l /\ f a = Raise e) ->
  mapM f l = Raise e.
Proof.
  induction l as [| a l IH]; intros Hall (a0 & Hin & Hf).
  - destruct Hin.
  - cbn [mapM]. destruct (f a) as [b | e'] eqn:E; cbn [rbind].
    + destruct Hin as [-> | Hin]; [congruence |].
      rewrite IH; [reflexivity | | exists a0; auto].
      intros a1 e1 H1. apply Hall. right. exact H1.
    + rewrite (Hall a e' (or_introl eq_refl) E). reflexivity.
Qed.

Lemma calculate_score_raises thr qs e :
  calculate_score thr qs = Raise e ->
  e = ValueError /\
  Z.of_nat (length (filter isnull qs)) <= thr /\ numbers qs = [].
Proof.
  unfold calculate_score.
  destruct (thr <? _) eqn:E; [discriminate |].
  apply Z.ltb_ge in E.
  destruct (numbers qs) as [| x xs]; simpl; [| discriminate].
  intros H. injection H as <-. auto.
Qed.

Lemma no_numbers_all_null qs :
  forallb is_float qs = true -> numbers qs = [] -> filter isnull qs = qs.
Proof.
  induction qs as [| v qs IH]; intros Hf Hn; [reflexivity |].
  cbn [forallb] in Hf. apply andb_true_iff in Hf. destruct Hf as [Hv Hf].
  destruct v; simpl in *; try discriminate.
  rewrite (IH Hf Hn). reflexivity.
Qed.

Section ScoringMore.

Variable to_float : string -> float.

Lemma coerced_questions_float r :
  forallb is_float (map (to_numeric to_float) (questions r)) = true.
Proof.
  apply forallb_forall. intros v Hv. apply in_map_iff in Hv.
  destruct Hv as (w & <- & _). apply to_numeric_is_float.
Qed.

Lemma to_numeric_twice qs :
  map (to_numeric to_float) (map (to_numeric to_float) qs)
  = map (to_numeric to_float) qs.
Proof.
  rewrite map_map. apply map_ext. intros v. apply to_numeric_idempotent.
Qed.

(** X10: whatever the threshold, a call of [score_subjects] that returns
    has stored the table it returns, with as many rows as before, in
    which every row has a score: [pd.NA] or an integer from 0 to 255. *)
Theorem score_subjects_range (thr : Z) (self : QuestionnaireAnalysis) d :
  snd (score_subjects to_float thr self) = Ok d ->
  data (fst (score_subjects to_float thr self)) = d /\
  length d = length (data self) /\
  forall r, In r (df_rows d) ->
            exists s, score r = Some s /\
                      forall z, s = Some z -> 0 <= z <= 255.
Proof.
  intros H.
  pose proof (keeps_table_length _ _ (score_subjects_keeps to_float thr self))
    as Hlen.
  unfold score_subjects in *.
  destruct (mapM _ (df_rows (coerce_questions to_float (data self))))
    as [scores |]; cbn [rbind] in *; [| discriminate H].
  destruct (astype_UInt8 scores) as [scores' |] eqn:E2; cbn [snd fst] in *;
    [| discriminate H].
  injection H as <-. cbn [data with_data] in *.
  split; [reflexivity |]. split; [exact Hlen |].
  intros r Hr. apply assign_score_rows_scores in Hr.
  destruct Hr as (r1 & s & _ & Hs & ->).
  exists s. split; [reflexivity |].
  intros z ->. rewrite (astype_UInt8_same _ _ E2) in Hs.
  apply (astype_UInt8_inv _ _ E2 z Hs).
Qed.

(** X11: with a negative threshold every row is unscored: the call
    returns, whatever the answers are, and every score is [pd.NA]. *)
Theorem score_subjects_negative_threshold (thr : Z)
    (self : QuestionnaireAnalysis) :
  thr < 0 ->
  exists d,
    score_subjects to_float thr self = (with_data self d, Ok d) /\
    df_rows d
    = map (fun r => set_score None (coerce_row to_float r))
          (df_rows (data self)).
Proof.
  intros Hneg. unfold score_subjects.
  rewrite coerce_questions_eq, map_rows_rows.
  rewrite (mapM_ok _ (fun _ => None)).
  2:{ intros r _. unfold calculate_score.
      assert (E : (thr <? Z.of_nat (length (filter isnull (questions r))))
                  = true) by (apply Z.ltb_lt; lia).
      rewrite E. reflexivity. }
  cbn [rbind]. rewrite astype_UInt8_all_NA.
  2:{ intros s Hs. apply in_map_iff in Hs. destruct Hs as (x & <- & _).
      reflexivity. }
  rewrite map_map.
  rewrite (assign_score_map (coerce_row to_float) (fun _ => None)).
  eexists. split; [reflexivity |].
  apply map_rows_rows.
Qed.

(** A ValueError is the floor of a NaN mean: the threshold is 5 or more
    and some row has no number among its coerced answers. *)
Lemma score_subjects_value_error_coerced (thr : Z)
    (self : QuestionnaireAnalysis) :
  snd (score_subjects to_float thr self) = Raise ValueError <->
  5 <= thr /\
  exists r, In r (df_rows (data self)) /\
            numbers (map (to_numeric to_float) (questions r)) = [].
Proof.
  unfold score_subjects.
  rewrite coerce_questions_eq, map_rows_rows. split.
  - intros H.
    destruct (mapM _ (map (coerce_row to_float) (df_rows (data self))))
      as [scores | e] eqn:E1; cbn [rbind] in H.
    + destruct (astype_UInt8 scores) as [scores' | e] eqn:E2;
        cbn [snd] in H; [discriminate H |].
      destruct (astype_UInt8_not_value_error _ _ E2) as [Hn _]. congruence.
    + cbn [snd] in H. injection H as ->.
      apply mapM_raise in E1. destruct E1 as (a & Ha & Hf).
      apply in_map_iff in Ha. destruct Ha as (r & <- & Hr).
      rewrite questions_coerce_row in Hf.
      apply calculate_score_raises in Hf. destruct Hf as (_ & Hc & Hn).
      rewrite (no_numbers_all_null _ (coerced_questions_float r) Hn) in Hc.
      rewrite length_map in Hc. unfold questions, qcols in Hc.
      cbn [map length] in Hc.
      split; [lia | exists r; auto].
  - intros (Hthr & r & Hr & Hn).
    rewrite (mapM_raise_all _ _ ValueError).
    + reflexivity.
    + intros a e' _ Hf. apply calculate_score_raises in Hf. tauto.
    + exists (coerce_row to_float r). split; [apply in_map; exact Hr |].
      rewrite questions_coerce_row. unfold calculate_score.
      rewrite (no_numbers_all_null _ (coerced_questions_float r) Hn).
      rewrite length_map. unfold questions at 1, qcols. cbn [map length].
      assert (E : (thr <? Z.of_nat 5) = false) by (apply Z.ltb_ge; lia).
      rewrite E, Hn. reflexivity.
Qed.

(** X13: [score_subjects()] called again after it has returned returns
    the same table and leaves the object as it is: coercion and scores are
    stable. *)
Theorem score_subjects_again (self : QuestionnaireAnalysis) d :
  snd (score_subjects to_float 1 self) = Ok d ->
  score_subjects to_float 1 (with_data self d) = (with_data self d, Ok d).
Proof.
  rewrite score_subjects_default_run.
  destruct (astype_UInt8 _) as [scores |] eqn:E; cbn [snd];
    [| discriminate].
  intros H. injection H as <-.
  pose proof (astype_UInt8_same _ _ E) as Es. subst scores.
  rewrite assign_score_map.
  set (F := fun r => set_score
                       (claimed_score
                          (map (to_numeric to_float) (questions r)))
                       (coerce_row to_float r)).
  assert (Hq : forall r, questions (F r)
                         = map (to_numeric to_float) (questions r)).
  { intros r. destruct r. reflexivity. }
  assert (HF : forall r, F (F r) = F r).
  { intros r. unfold F at 1.
    rewrite Hq, to_numeric_twice. unfold F.
    destruct r. unfold set_score, coerce_row. cbn.
    rewrite !to_numeric_idempotent. reflexivity. }
  rewrite score_subjects_default_run. cbn [data with_data].
  rewrite map_rows_rows, map_map.
  rewrite (map_ext (fun r => claimed_score
                               (map (to_numeric to_float) (questions (F r))))
                   (fun r => claimed_score
                               (map (to_numeric to_float) (questions r))))
    by (intros r; rewrite Hq, to_numeric_twice; reflexivity).
  rewrite E.
  assert (Ed : assign_score (map_rows (coerce_row to_float) (map_rows F
                                                                (data self)))
                 (map (fun r => claimed_score
                                  (map (to_numeric to_float) (questions r)))
                      (df_rows (data self)))
               = map_rows F (data self)).
  { rewrite <- (map_ext (fun r => claimed_score
                               (map (to_numeric to_float) (questions (F r))))
                   (fun r => claimed_score
                               (map (to_numeric to_float) (questions r))))
      by (intros r; rewrite Hq, to_numeric_twice; reflexivity).
    rewrite <- (map_map F (fun r => claimed_score
                               (map (to_numeric to_float) (questions r)))).
    rewrite <- (map_rows_rows F), assign_score_map, map_rows_compose.
    unfold map_rows. apply map_ext. intros [i r]. cbn [fst snd].
    f_equal. apply HF. }
  rewrite Ed. reflexivity.
Qed.

End ScoringMore.

Section ExactThresholds.

Variable parse : string -> parsed.

(** Among exact answers the coerced cells without a number are the
    unanswered ones. *)
Lemma exact_cells_unanswered qs :
  forallb (exact_cell parse) qs = true ->
  (numbers (map (to_numeric (finite_part parse)) qs) = [] <->
   forallb (unanswered parse) qs = true).
Proof.
  induction qs as [| v qs IH]; intros H.
  - split; reflexivity.
  - cbn [forallb] in H. apply andb_true_iff in H. destruct H as [Hv Hqs].
    specialize (IH Hqs). cbn [map forallb].
    destruct v as [| | x | s]; cbn [to_numeric unanswered andb].
    + exact IH.
    + exact IH.
    + split; discriminate.
    + unfold finite_part. cbn [exact_cell] in Hv.
      destruct (parse s) as [x | | b]; cbn [of_float andb].
      * split; discriminate.
      * exact IH.
      * discriminate Hv.
Qed.

(** X12: on a table whose answers are whole numbers of absolute value at
    most 2^50, missing, or strings read as such a number or as NaN,
    [score_subjects] raises a ValueError exactly when the threshold is 5
    or more and some row has no answer at all (the floor of a NaN mean);
    with a threshold below 5 it never does. *)
Theorem score_subjects_value_error (thr : Z) (self : QuestionnaireAnalysis) :
  exact_answers parse (data self) ->
  (snd (score_subjects (finite_part parse) thr self) = Raise ValueError <->
   5 <= thr /\
   exists r, In r (df_rows (data self)) /\
             forallb (unanswered parse) (questions r) = true).
Proof.
  intros Hex. rewrite score_subjects_value_error_coerced.
  split; intros (Hthr & r & Hr & Hn); (split; [exact Hthr |]);
    exists r; (split; [exact Hr |]);
    apply (exact_cells_unanswered _ (Hex r Hr)); exact Hn.
Qed.

End ExactThresholds.

Lemma score_subjects_value_error_witness :
  snd (score_subjects (finite_part sample_parse) 5
         (loaded [row_with_questions (VNum 1) (VNum 2) (VNum 3) (VNum 4)
                                     (VNum 5);
                  row_with_questions VNone VNaN (VStr "abc") VNone VNone]))
  = Raise ValueError <->
  5 <= 5 /\
  exists r,
    In r (df_rows (data
      (loaded [row_with_questions (VNum 1) (VNum 2) (VNum 3) (VNum 4)
                                  (VNum 5);
               row_with_questions VNone VNaN (VStr "abc") VNone VNone]))) /\
    forallb (unanswered sample_parse) (questions r) = true.
Proof.
  apply (score_subjects_value_error sample_parse 5).
  intros r [<- | [<- | []]]; vm_compute; reflexivity.
Defined.

(** The call of the witness does raise. *)
Example score_subjects_value_error_example :
  snd (score_subjects (finite_part sample_parse) 5
         (loaded [row_with_questions (VNum 1) (VNum 2) (VNum 3) (VNum 4)
                                     (VNum 5);
                  row_with_questions VNone VNaN (VStr "abc") VNone VNone]))
  = Raise ValueError.
Proof. reflexivity. Qed.

Lemma score_subjects_range_witness :
  length (assign_score
            (range_frame [coerce_row digits_to_float
                            (row_with_questions (VNum 7) (VNum 8) (VStr "9")
                                                VNone (VNum 1))])
            [Some 6])
  = length (data (loaded [row_with_questions (VNum 7) (VNum 8) (VStr "9")
                                             VNone (VNum 1)])).
Proof.
  apply (score_subjects_range digits_to_float 2
           (loaded [row_with_questions (VNum 7) (VNum 8) (VStr "9") VNone
                                       (VNum 1)])).
  reflexivity.
Defined.

Lemma score_subjects_negative_threshold_witness :
  exists d,
    score_subjects digits_to_float (-1)
      (loaded [row_with_questions (VNum 1) (VNum 2) (VNum 3) (VNum 4)
                                  (VNum 5)])
    = (with_data
         (loaded [row_with_questions (VNum 1) (VNum 2) (VNum 3) (VNum 4)
                                     (VNum 5)]) d,
       Ok d) /\
    df_rows d
    = map (fun r => set_score None (coerce_row digits_to_float r))
          (df_rows (data (loaded [row_with_questions (VNum 1) (VNum 2)
                                    (VNum 3) (VNum 4) (VNum 5)]))).
Proof.
  apply (score_subjects_negative_threshold digits_to_float (-1)). lia.
Defined.

Lemma score_subjects_again_witness :
  exists d,
    score_subjects digits_to_float 1
      (with_data
         (loaded [row_with_questions (VNum 10) (VStr "20") VNone (VNum 40)
                                     (VNum 50)]) d)
    = (with_data
         (loaded [row_with_questions (VNum 10) (VStr "20") VNone (VNum 40)
                                     (VNum 50)]) d,
       Ok d).
Proof.
  eexists.
  apply (score_subjects_again digits_to_float
           (loaded [row_with_questions (VNum 10) (VStr "20") VNone (VNum 40)
                                       (VNum 50)])).
  reflexivity.
Defined.

Section PlainScores.

Variable to_float : string -> float.

Lemma plain_score_bounds r z :
  forallb plain_cell (questions r) = true ->
  claimed_score (map (to_numeric to_float) (questions r)) = Some z ->
  0 <= z <= 100.
Proof.
  intros Hp Hz. destruct (plain_numbers to_float _ Hp) as (E & F & _).
  unfold claimed_score in Hz. rewrite E in Hz.
  destruct (1 <? _); [discriminate Hz |].
  destruct (nanmean (numbers (questions r))) as [m |] eqn:Em;
    [| discriminate Hz].
  injection Hz as <-. destruct (nanmean_bounds _ _ F Em) as [H0 H1].
  apply Qfloor_resp_le in H0. apply Qfloor_resp_le in H1.
  change (Qfloor 0) with 0 in H0. change (Qfloor 100) with 100 in H1.
  lia.
Qed.

(** X14: when every answer of the table is a number from 0 to 100 or
    missing, [score_subjects()] returns, and every score it stores is
    [pd.NA] or an integer from 0 to 100. *)
Theorem score_subjects_plain_rows (self : QuestionnaireAnalysis) :
  plain_rows (data self) ->
  exists d,
    snd (score_subjects to_float 1 self) = Ok d /\
    forall r, In r (df_rows d) ->
              exists s, score r = Some s /\
                        forall z, s = Some z -> 0 <= z <= 100.
Proof.
  intros Hp. rewrite score_subjects_default_run.
  destruct (plain_rows_well_formed to_float _ Hp) as [_ Hfit].
  rewrite (astype_UInt8_fits to_float _ Hfit). cbn [snd].
  eexists. split; [reflexivity |].
  intros r' Hr'. rewrite scored_rows in Hr'.
  apply in_map_iff in Hr'. destruct Hr' as (r & <- & Hr).
  eexists. split; [reflexivity |].
  intros z Hz. apply (plain_score_bounds r z (Hp r Hr) Hz).
Qed.

End PlainScores.

Lemma score_subjects_plain_rows_witness :
  exists d,
    snd (score_subjects digits_to_float 1
           (loaded [row_with_questions (VNum 100) (VNum 99) VNone (VNum 0)
                                       (VNum 50);
                    row_with_questions VNaN VNaN (VNum 3) (VNum 4) (VNum 5)]))
    = Ok d /\
    forall r, In r (df_rows d) ->
              exists s, score r = Some s /\
                        forall z, s = Some z -> 0 <= z <= 100.
Proof.
  apply (score_subjects_plain_rows digits_to_float).
  intros r [<- | [<- | []]]; reflexivity.
Defined.

(** ** Correlation: when it raises, what it returns *)

Lemma insert_key_length k ks : (length (insert_key k ks) <= S (length ks))%nat.
Proof.
  induction ks as [| h ks IH]; simpl; [lia |].
  destruct (key_compare k h); simpl; lia.
Qed.

Lemma group_keys_length df : (length (group_keys df) <= length df)%nat.
Proof.
  unfold group_keys. rewrite <- (length_map snd df). fold (df_rows df).
  induction (df_rows df) as [| r rows IH]; simpl; [lia |].
  destruct (row_key r).
  - pose proof (insert_key_length k
                  (fold_right
                     (fun r ks => match row_key r with
                                  | Some k => insert_key k ks
                                  | None => ks
                                  end) [] rows)). lia.
  - lia.
Qed.

Lemma select_columns_keys cs g table :
  select_columns cs g = Ok table ->
  map fst table = map fst (g_rows g) /\
  Forall (fun kr => length (snd kr) = length cs) table.
Proof.
  unfold select_columns. destruct (forallb _ cs); [| discriminate].
  intros H. injection H as <-. split.
  - rewrite map_map. reflexivity.
  - apply Forall_forall. intros kr Hkr. apply in_map_iff in Hkr.
    destruct Hkr as (kr0 & <- & _). cbn [snd]. apply length_map.
Qed.

Section CorrelationMore.

Variable to_float : string -> float.

Lemma correlate_gender_age_eq self :
  correlate_gender_age to_float self
  = (with_data self (map_rows (labelled to_float) (data self)),
     select_columns qcols
       (groupby_mean (map_rows (labelled to_float) (data self)))).
Proof.
  unfold correlate_gender_age, coerce_age.
  rewrite map_rows_compose. reflexivity.
Qed.

Lemma numeric_column_labelled c df :
  numeric_column c (map_rows (labelled to_float) df) = numeric_column c df.
Proof.
  unfold numeric_column. rewrite map_rows_rows.
  induction (df_rows df) as [| r rows IH]; simpl; [reflexivity |].
  rewrite get_q_labelled, IH. reflexivity.
Qed.

Lemma labelled_idempotent r :
  labelled to_float (labelled to_float r) = labelled to_float r.
Proof.
  destruct r. unfold labelled, set_age_group, set_age. cbn.
  rewrite to_numeric_idempotent. reflexivity.
Qed.

Lemma labelled_after_coercion r :
  labelled to_float (set_age (to_numeric to_float (age r)) r)
  = labelled to_float r.
Proof.
  destruct r. unfold labelled, set_age_group, set_age. cbn.
  rewrite to_numeric_idempotent. reflexivity.
Qed.

(** X15: [correlate_gender_age] returns exactly when each of q1..q5 is a
    numeric column of the stored table; when one of them is not it raises
    a KeyError, after it has stored the coerced ages and the labels. *)
Theorem correlate_gender_age_raises_exactly (self : QuestionnaireAnalysis) :
  (returns (snd (correlate_gender_age to_float self)) <->
   forall c, numeric_column c (data self) = true) /\
  ((exists c, numeric_column c (data self) = false) ->
   snd (correlate_gender_age to_float self) = Raise KeyError) /\
  data (fst (correlate_gender_age to_float self))
  = map_rows (labelled to_float) (data self).
Proof.
  rewrite correlate_gender_age_eq. cbn [fst snd data with_data].
  assert (Hbad : (exists c, numeric_column c (data self) = false) ->
                 select_columns qcols
                   (groupby_mean (map_rows (labelled to_float) (data self)))
                 = Raise KeyError).
  { intros (c & Hc). apply (select_missing_column _ c).
    rewrite numeric_column_labelled. exact Hc. }
  split; [| split; [exact Hbad | reflexivity]].
  split.
  - intros (table & H) c.
    destruct (numeric_column c (data self)) eqn:E; [reflexivity |].
    rewrite Hbad in H by (exists c; exact E). discriminate H.
  - intros Hall. rewrite select_all_columns.
    + eexists. reflexivity.
    + intros c. rewrite numeric_column_labelled. apply Hall.
Qed.

(** X16: the table [correlate_gender_age] returns is in strictly
    increasing order of (gender, age group), so no pair occurs twice; it
    has at most as many rows as the stored table, and five means in every
    row. *)
Theorem correlate_gender_age_sorted (self : QuestionnaireAnalysis) table :
  snd (correlate_gender_age to_float self) = Ok table ->
  StronglySorted key_lt (map fst table) /\
  (length table <= length (data self))%nat /\
  Forall (fun kr => length (snd kr) = 5%nat) table.
Proof.
  rewrite correlate_gender_age_eq. cbn [snd]. intros H.
  apply select_columns_keys in H. destruct H as [Hk Hl].
  unfold groupby_mean in Hk. cbn [g_rows] in Hk.
  rewrite map_map in Hk. cbn [fst] in Hk. rewrite map_id in Hk.
  split; [rewrite Hk; apply group_keys_sorted |].
  split; [| exact Hl].
  rewrite <- (length_map fst table), Hk.
  rewrite <- (map_rows_length (labelled to_float) (data self)).
  apply group_keys_length.
Qed.

(** X17: the stored age coercion makes no difference to a later
    correlation: [correlate_gender_age] after [show_age_distrib] does
    what it does without it, and called twice in a row it returns the same
    table and leaves the object as the first call left it. *)
Theorem correlate_gender_age_again (self : QuestionnaireAnalysis) :
  correlate_gender_age to_float (fst (show_age_distrib to_float self))
  = correlate_gender_age to_float self /\
  correlate_gender_age to_float (fst (correlate_gender_age to_float self))
  = correlate_gender_age to_float self.
Proof.
  assert (E1 : map_rows (labelled to_float) (coerce_age to_float (data self))
               = map_rows (labelled to_float) (data self)).
  { unfold coerce_age. rewrite map_rows_compose. unfold map_rows.
    apply map_ext. intros [i r]. cbn [fst snd].
    rewrite labelled_after_coercion. reflexivity. }
  assert (E2 : map_rows (labelled to_float)
                 (map_rows (labelled to_float) (data self))
               = map_rows (labelled to_float) (data self)).
  { rewrite map_rows_compose. unfold map_rows.
    apply map_ext. intros [i r]. cbn [fst snd].
    rewrite labelled_idempotent. reflexivity. }
  split.
  - rewrite !correlate_gender_age_eq. unfold show_age_distrib.
    cbn [fst data with_data]. rewrite E1. reflexivity.
  - rewrite (correlate_gender_age_eq self) at 2.
    rewrite (correlate_gender_age_eq
               (fst (correlate_gender_age to_float self))).
    rewrite correlate_gender_age_eq. cbn [fst data with_data].
    rewrite E2. reflexivity.
Qed.

End CorrelationMore.

Lemma correlate_gender_age_sorted_witness :
  StronglySorted key_lt
    [("F"%string, above_40); ("F"%string, below_40); ("M"%string, below_40)].
Proof.
  apply (correlate_gender_age_sorted digits_to_float
           (loaded [row_of "M" (VNum 20) (VNum 1);
                    row_of "F" (VNum 30) (VNum 2);
                    row_of "F" (VNum 50) (VNum 3);
                    row_of "M" (VStr "old") (VNum 4)])
           [(("F"%string, above_40),
             [Some 3%Q; Some 3%Q; Some 3%Q; Some 3%Q; Some 3%Q]);
            (("F"%string, below_40),
             [Some 2%Q; Some 2%Q; Some 2%Q; Some 2%Q; Some 2%Q]);
            (("M"%string, below_40),
             [Some (5 # 2); Some (5 # 2); Some (5 # 2); Some (5 # 2);
              Some (5 # 2)])]).
  reflexivity.
Defined.

(** ** The script as a whole *)

Lemma and_then_raises {A B : Type} (m : method A) (k : method B) self e :
  snd (m self) = Raise e -> snd (and_then m k self) = Raise e.
Proof.
  unfold and_then. destruct (m self) as [self' [a | e']]; simpl.
  - discriminate.
  - intros H. injection H as ->. reflexivity.
Qed.

Section Script.

Variable to_float : string -> float.

Lemma well_formed_before_show df :
  well_formed to_float (coerce_age to_float df) -> well_formed to_float df.
Proof.
  unfold well_formed, scores_fit_UInt8, coerce_age.
  rewrite map_rows_rows. intros [Hf Hs]. split.
  - intros r Hr.
    apply (Hf (set_age (to_numeric to_float (age r)) r)).
    apply (in_map (fun r => set_age (to_numeric to_float (age r)) r)).
    exact Hr.
  - intros r z Hr.
    apply (Hs (set_age (to_numeric to_float (age r)) r) z).
    apply (in_map (fun r => set_age (to_numeric to_float (age r)) r)).
    exact Hr.
Qed.

Lemma score_subjects_default_cases self :
  returns (snd (score_subjects to_float 1 self)) \/
  snd (score_subjects to_float 1 self) = Raise TypeError \/
  snd (score_subjects to_float 1 self) = Raise OverflowError.
Proof.
  rewrite score_subjects_default_run.
  destruct (astype_UInt8 _) as [scores | e] eqn:E; cbn [snd].
  - left. eexists. reflexivity.
  - right. apply astype_UInt8_raises in E.
    destruct E as [[-> _] | [-> _]]; auto.
Qed.

Lemma main_cases self :
  (well_formed to_float (data self) /\ returns (snd (main to_float self))) \/
  (~ well_formed to_float (data self) /\
   (snd (main to_float self) = Raise TypeError \/
    snd (main to_float self) = Raise OverflowError)).
Proof.
  set (s1 := fst (show_age_distrib to_float self)).
  assert (D1 : data s1 = coerce_age to_float (data self)) by reflexivity.
  assert (Hmain : main to_float self
                  = (fill_na_with_mean ;;;
                     score_subjects to_float 1 ;;;
                     correlate_gender_age to_float) s1).
  { unfold main.
    rewrite and_then_returns by (eexists; reflexivity).
    rewrite and_then_returns
      by (rewrite remove_rows_without_mail_eq; eexists; reflexivity).
    rewrite remove_rows_without_mail_eq. reflexivity. }
  destruct (all_or_some_not_fillable (df_rows (data s1))) as [Hall | Hsome].
  - destruct (fill_na_with_mean_returns s1 Hall) as (res & E).
    assert (Hmain' : main to_float self
                     = (score_subjects to_float 1 ;;;
                        correlate_gender_age to_float) s1).
    { rewrite Hmain.
      rewrite and_then_returns by (rewrite E; eexists; reflexivity).
      rewrite E. reflexivity. }
    destruct (score_subjects_default_cases s1) as [Hret | Hraise].
    + left.
      assert (Hwf : well_formed to_float (data self)).
      { apply well_formed_before_show. rewrite <- D1.
        split; [exact Hall | apply score_subjects_returns_iff; exact Hret]. }
      split; [exact Hwf | apply main_returns; exact Hwf].
    + right. split.
      * intros Hwf. apply well_formed_after_show in Hwf.
        destruct Hwf as [_ Hfit]. rewrite <- D1 in Hfit.
        apply score_subjects_returns_iff in Hfit.
        destruct Hfit as (d & Hd).
        destruct Hraise as [Hraise | Hraise]; congruence.
      * rewrite Hmain'.
        destruct Hraise as [Hraise | Hraise];
          [left | right]; apply and_then_raises; exact Hraise.
  - right. split.
    + intros Hwf. apply well_formed_after_show in Hwf.
      destruct Hwf as [Hf _]. rewrite <- D1 in Hf.
      destruct Hsome as (r & Hr & Hb). rewrite (Hf r Hr) in Hb.
      discriminate Hb.
    + left. rewrite Hmain. apply and_then_raises.
      unfold fill_na_with_mean. cbn [snd].
      apply fill_loop_raises.
      destruct Hsome as (r & Hr & Hb). unfold df_rows in Hr.
      apply in_map_iff in Hr. destruct Hr as (ir & <- & Hir).
      exists ir. auto.
Qed.



End Script.

Section ExactScript.

Variable parse : string -> parsed.

(** X18: on a table whose answers are whole numbers of absolute value at
    most 2^50, missing, or strings read as such a number or as NaN, the
    script returns exactly when no row holds both a missing answer and a
    string among q1..q5 and the score of every scored row is from 0 to
    255; on every other such table it ends with a TypeError, raised by
    [fill_na_with_mean] or by [score_subjects], or with an OverflowError,
    raised by [score_subjects].  It never ends with a KeyError or a
    ValueError. *)
Theorem main_raises_exactly (self : QuestionnaireAnalysis) :
  exact_answers parse (data self) ->
  (returns (snd (main (finite_part parse) self)) <->
   (forall r, In r (df_rows (data self)) -> fillable r = true) /\
   integer_scores_fit parse (data self)) /\
  (returns (snd (main (finite_part parse) self)) \/
   snd (main (finite_part parse) self) = Raise TypeError \/
   snd (main (finite_part parse) self) = Raise OverflowError) /\
  snd (main (finite_part parse) self) <> Raise KeyError /\
  snd (main (finite_part parse) self) <> Raise ValueError.
Proof.
  intros Hex.
  assert (Hwf_iff : well_formed (finite_part parse) (data self) <->
                    (forall r, In r (df_rows (data self)) ->
                               fillable r = true) /\
                    integer_scores_fit parse (data self)).
  { unfold well_formed. rewrite (exact_scores_fit parse _ Hex). reflexivity. }
  rewrite <- Hwf_iff.
  destruct (main_cases (finite_part parse) self)
    as [[Hwf (t & Hret)] | [Hnwf Hraise]].
  - split; [split; [intros _; exact Hwf | intros _; exists t; exact Hret] |].
    split; [left; exists t; exact Hret |].
    rewrite Hret. split; discriminate.
  - split.
    + split; [intros (t & Ht) | intros Hwf; contradiction].
      destruct Hraise as [Hraise | Hraise]; congruence.
    + split; [right; exact Hraise |].
      destruct Hraise as [-> | ->]; split; discriminate.
Qed.

End ExactScript.

Lemma main_raises_exactly_witness :
  exact_answers sample_parse
    (data (loaded [row_with_questions (VNum 300) (VNum 300) (VNum 300)
                                      (VNum 300) (VNum 300);
                   row_with_questions VNone VNone (VNum 1) (VNum 2)
                                      (VNum 3)])) /\
  snd (main (finite_part sample_parse)
         (loaded [row_with_questions (VNum 300) (VNum 300) (VNum 300)
                                     (VNum 300) (VNum 300);
                  row_with_questions VNone VNone (VNum 1) (VNum 2)
                                     (VNum 3)]))
  <> Raise ValueError.
Proof.
  assert (Hex : exact_answers sample_parse
    (data (loaded [row_with_questions (VNum 300) (VNum 300) (VNum 300)
                                      (VNum 300) (VNum 300);
                   row_with_questions VNone VNone (VNum 1) (VNum 2)
                                      (VNum 3)]))).
  { intros r [<- | [<- | []]]; vm_compute; reflexivity. }
  split; [exact Hex |].
  apply (main_raises_exactly sample_parse _ Hex).
Defined.

(** How the script ends on three tables of exact answers: it returns, it
    ends with the TypeError of the cast of a column of integers, it ends
    with the OverflowError of the cast beside an unscored row. *)
Example main_examples :
  returns (snd (main (finite_part sample_parse)
     (loaded [row_with_questions (VNum 10) (VStr "20") (VNum 30) (VNum 40)
                                 (VNum 50)]))) /\
  snd (main (finite_part sample_parse)
         (loaded [row_with_questions (VNum 300) (VNum 300) (VNum 300)
                                     (VNum 300) (VNum 300)]))
  = Raise TypeError /\
  snd (main (finite_part sample_parse)
         (loaded [row_with_questions (VNum 300) (VNum 300) (VNum 300)
                                     (VNum 300) (VNum 300);
                  row_with_questions VNone VNone (VNum 1) (VNum 2)
                                     (VNum 3)]))
  = Raise OverflowError.
Proof.
  split; [eexists; reflexivity |]. split; reflexivity.
Qed.


(** ** Rows without a gender *)

Section MissingGender.

Variable to_float : string -> float.

Lemma row_key_no_gender r :
  gender r = None -> row_key (labelled to_float r) = None.
Proof.
  intros H. unfold row_key. cbn [labelled set_age_group gender].
  unfold set_age. cbn [gender]. rewrite H. reflexivity.
Qed.

Lemma group_keys_with_gender df :
  group_keys (map_rows (labelled to_float) (with_gender df))
  = group_keys (map_rows (labelled to_float) df).
Proof.
  unfold group_keys. rewrite !map_rows_rows. unfold df_rows, with_gender.
  induction df as [| [i r] df IH]; [reflexivity |].
  cbn [filter snd]. destruct (gender r) eqn:G.
  - cbn [map fold_right snd]. rewrite IH. reflexivity.
  - cbn [map fold_right snd]. rewrite (row_key_no_gender r G). exact IH.
Qed.

Lemma group_rows_with_gender k df :
  group_rows k (map_rows (labelled to_float) (with_gender df))
  = group_rows k (map_rows (labelled to_float) df).
Proof.
  unfold group_rows. rewrite !map_rows_rows. unfold df_rows, with_gender.
  induction df as [| [i r] df IH]; [reflexivity |].
  cbn [filter snd]. destruct (gender r) eqn:G.
  - cbn [map filter snd]. rewrite IH. reflexivity.
  - cbn [map filter snd]. unfold in_group at 2.
    rewrite (row_key_no_gender r G). exact IH.
Qed.

(** X20: rows without a gender take no part in the correlation: on a
    table with numeric question columns, [correlate_gender_age] returns
    the table it returns when those rows are taken out first. *)
Theorem correlate_gender_age_ignores_missing_gender
    (self : QuestionnaireAnalysis) :
  questions_numeric (data self) ->
  returns (snd (correlate_gender_age to_float self)) /\
  snd (correlate_gender_age to_float
         (with_data self (with_gender (data self))))
  = snd (correlate_gender_age to_float self).
Proof.
  intros Hnum.
  assert (Hnum' : questions_numeric (with_gender (data self))).
  { intros r c Hr. apply Hnum. unfold df_rows, with_gender in *.
    apply in_map_iff in Hr. destruct Hr as (ir & <- & Hir).
    apply filter_In in Hir. apply in_map. tauto. }
  rewrite !correlate_gender_age_result. cbn [data with_data].
  rewrite !select_all_columns
    by (intros c; apply numeric_after_labelling; assumption).
  split; [eexists; reflexivity |].
  rewrite group_keys_with_gender. f_equal.
  apply map_ext. intros k. f_equal.
  apply map_ext. intros c. unfold group_mean.
  rewrite group_rows_with_gender. reflexivity.
Qed.

End MissingGender.

Lemma correlate_gender_age_ignores_missing_gender_witness :
  returns (snd (correlate_gender_age digits_to_float
                  (loaded [row_of "F" (VNum 45) (VNum 10);
                           mkRow (VNum 50) None (VStr "x@y.z") (VNum 1)
                                 (VNum 1) (VNum 1) (VNum 1) (VNum 1)
                                 None None]))).
Proof.
  apply (correlate_gender_age_ignores_missing_gender digits_to_float
           (loaded [row_of "F" (VNum 45) (VNum 10);
                    mkRow (VNum 50) None (VStr "x@y.z") (VNum 1)
                          (VNum 1) (VNum 1) (VNum 1) (VNum 1)
                          None None])).
  intros r c [<- | [<- | []]]; destruct c; reflexivity.
Defined.
